(** * WebCut: page capture engine and privileged relay

    A shallow embedding of [content.js] (snapshot construction and asset
    harvesting) and [background.js] (the relay to the ingestion API), with
    the properties of the specification stated and proved over it.

    JavaScript strings are sequences of UTF-16 code units; effects
    ([console.warn], [fetch]) are recorded in a trace; [try]/[catch],
    [await] and promise rejection are modelled by an exception monad. *)

From Stdlib Require Import List NArith Bool Lia Ascii String PeanoNat.
Import ListNotations.

(** ** JavaScript strings *)

Module JsString.

(** A string is the list of its UTF-16 code units. *)
Abbreviation jsstring := (list N).

(** An ASCII literal of the source. *)
Definition lit (s : string) : jsstring :=
  map N_of_ascii (list_ascii_of_string s).

Definition cu_eqb (a b : N) : bool := N.eqb a b.

(** [s.startsWith(p)] *)
Fixpoint startsWith (p s : jsstring) : bool :=
  match p, s with
  | [], _ => true
  | _ :: _, [] => false
  | a :: p', b :: s' => cu_eqb a b && startsWith p' s'
  end.

(** [s.includes(p)] *)
Fixpoint includes (p s : jsstring) : bool :=
  startsWith p s ||
  match s with
  | [] => false
  | _ :: s' => includes p s'
  end.

(** [s.substring(0, n)] *)
Definition substring0 (n : nat) (s : jsstring) : jsstring := firstn n s.

(** Decimal digits of a number, most significant first; [fuel] bounds
    the number of digits produced. *)
Fixpoint digits (fuel : nat) (n : N) (acc : jsstring) : jsstring :=
  match fuel with
  | O => acc
  | S fuel' =>
      let acc' := (48 + n mod 10)%N :: acc in
      if (n / 10 =? 0)%N then acc' else digits fuel' (n / 10)%N acc'
  end.

(** [String(n)] for a non-negative integer [n], as a template literal
    [`${n}`] renders it. *)
Definition of_number (n : N) : jsstring :=
  digits (S (N.to_nat (N.log2 n))) n [].

Definition is_digit (c : N) : bool := ((48 <=? c) && (c <=? 57))%N.

End JsString.
Import JsString.

(** ** The regular expressions of [generateHtmlSnapshot]

    The three patterns [/<base[^>]*>/i], [/<head[^>]*>/i] and
    [/<html[^>]*>/i] are sequences of literal characters and one greedy
    negated class. *)

Module Regex.

Inductive atom :=
| Chr (c : N)        (* a pattern character *)
| StarNot (c : N).   (* [^c]*, greedy *)

Definition regex := list atom.

(** Canonicalize of the [i] flag (no [u] flag): upper-casing, which never
    maps a non-ASCII code unit to an ASCII one.  On the ASCII range it is
    the function below; above it the result stays outside ASCII, so
    comparisons against the ASCII pattern characters used here agree. *)
Definition canonicalize (ch : N) : N :=
  if ((97 <=? ch) && (ch <=? 122))%N then (ch - 32)%N else ch.

Definition chr_matches (c ch : N) : bool :=
  N.eqb (canonicalize c) (canonicalize ch).

(** Backtracking matcher anchored at the start of [s]: the length of the
    match the engine finds, if any.  The starred class first takes as many
    characters as it can and gives them back one by one. *)
Fixpoint match_here (p : regex) (s : jsstring) {struct p} : option nat :=
  match p with
  | [] => Some 0
  | Chr c :: p' =>
      match s with
      | ch :: s' =>
          if chr_matches c ch then option_map S (match_here p' s') else None
      | [] => None
      end
  | StarNot c :: p' =>
      (fix star (s : jsstring) : option nat :=
         match s with
         | ch :: s' =>
             if negb (chr_matches c ch) then
               match star s' with
               | Some n => Some (S n)
               | None => match_here p' s
               end
             else match_here p' s
         | [] => match_here p' s
         end) s
  end.

(** [RegExp.prototype.exec] without the [g] flag: the leftmost position at
    which the pattern matches, with the length of the match. *)
Fixpoint exec (p : regex) (s : jsstring) : option (nat * nat) :=
  match match_here p s with
  | Some n => Some (0, n)
  | None =>
      match s with
      | [] => None
      | _ :: s' =>
          match exec p s' with
          | Some (i, n) => Some (S i, n)
          | None => None
          end
      end
  end.

(** [re.test(s)] *)
Definition test (p : regex) (s : jsstring) : bool :=
  match exec p s with Some _ => true | None => false end.

(** [s.replace(re, f)] with a replacer function and no [g] flag: only the
    first match is replaced, and the replacer's result is inserted as it
    is. *)
Definition replace (p : regex) (f : jsstring -> jsstring) (s : jsstring)
  : jsstring :=
  match exec p s with
  | Some (i, n) =>
      firstn i s ++ f (firstn n (skipn i s)) ++ skipn (i + n) s
  | None => s
  end.

(** Number of matches a global scan finds (as [s.match(/.../gi)] would):
    after a match the scan resumes behind it. *)
Fixpoint count_from (p : regex) (s : jsstring) (skip : nat) : nat :=
  match s with
  | [] => 0
  | _ :: s' =>
      match skip with
      | S k => count_from p s' k
      | O =>
          match match_here p s with
          | Some n => S (count_from p s' (n - 1))
          | None => count_from p s' 0
          end
      end
  end.

Definition count (p : regex) (s : jsstring) : nat := count_from p s 0.

(** [/<name[^>]*>/i] *)
Definition tag (name : string) : regex :=
  Chr 60 :: map Chr (lit name) ++ [StarNot 62; Chr 62].

End Regex.
Import Regex.

(** ** Snapshot construction ([content.js]) *)

(** The parts of [window.location] the capture reads. *)
Record Location := {
  href : jsstring;
  protocol : jsstring;   (* scheme with its colon, as in "https:" *)
  host : jsstring;
  hostname : jsstring;
  pathname : jsstring;
}.

Definition baseTagRegex : regex := tag "base".
Definition headTagRegex : regex := tag "head".
Definition htmlTagRegex : regex := tag "html".

Definition baseHref (loc : Location) : jsstring :=
  protocol loc ++ lit "//" ++ host loc ++ pathname loc.

(** [`\n<base href="${baseHref}">`] *)
Definition base_directive (loc : Location) : jsstring :=
  [10%N] ++ lit "<base href=" ++ [34%N] ++ baseHref loc ++ [34%N] ++ lit ">".

(** [`\n<head><base href="${baseHref}"></head>`] *)
Definition synthetic_head (loc : Location) : jsstring :=
  [10%N] ++ lit "<head><base href=" ++ [34%N] ++ baseHref loc ++ [34%N]
    ++ lit "></head>".

(** [generateHtmlSnapshot], with [document.documentElement.outerHTML] and
    [window.location] as arguments. *)
Definition generateHtmlSnapshot (loc : Location) (outerHTML : jsstring)
  : jsstring :=
  let html := outerHTML in
  let hasBaseTag := test baseTagRegex html in
  if negb hasBaseTag then
    if test headTagRegex html then
      replace headTagRegex (fun m => m ++ base_directive loc) html
    else if test htmlTagRegex html then
      replace htmlTagRegex (fun m => m ++ synthetic_head loc) html
    else html
  else html.

(** ** Effects: exceptions, promises and the trace *)

(** A thrown value.  [message] is [None] for an object without that
    property, such as the event a [FileReader] or an [img] signals an error
    with. *)
Record Thrown := { message : option jsstring }.

(** [new Error(m)] *)
Definition Error (m : jsstring) : Thrown := {| message := Some m |}.

(** The event object passed to an [onerror] handler. *)
Definition ErrorEvent : Thrown := {| message := None |}.

(** [error.message] inside a string concatenation. *)
Definition message_text (e : Thrown) : jsstring :=
  match message e with
  | Some m => m
  | None => lit "undefined"
  end.

(** The JSON values a response body decodes to. *)
Unset Elimination Schemes.
Inductive JsValue :=
| JNull
| JBool (b : bool)
| JNumber (n : N)
| JString (s : jsstring)
| JArray (items : list JsValue)
| JObject (fields : list (jsstring * JsValue)).
Set Elimination Schemes.

(** What a run leaves behind besides its result. *)
Inductive event :=
| ConsoleWarn (label : jsstring) (e : Thrown)
| FetchCall (method url : jsstring).

Inductive outcome (A : Type) :=
| Return (a : A)
| Throw (e : Thrown).
Arguments Return {A} a.
Arguments Throw {A} e.

(** A computation: the events it emitted, in order, and how it ended. *)
Definition Eff (A : Type) : Type := (list event * outcome A)%type.

Definition ret {A} (a : A) : Eff A := ([], Return a).
Definition throw {A} (e : Thrown) : Eff A := ([], Throw e).
Definition emit (ev : event) : Eff unit := ([ev], Return tt).

Definition bind {A B} (m : Eff A) (k : A -> Eff B) : Eff B :=
  match m with
  | (t, Return a) => let (t', r) := k a in (t ++ t', r)
  | (t, Throw e) => (t, Throw e)
  end.

(** [try { m } catch (e) { h e }] *)
Definition try_catch {A} (m : Eff A) (h : Thrown -> Eff A) : Eff A :=
  match m with
  | (t, Return a) => (t, Return a)
  | (t, Throw e) => let (t', r) := h e in (t ++ t', r)
  end.

Declare Scope eff_scope.
Delimit Scope eff_scope with eff.
Notation "x <- m ;; k" := (bind m (fun x => k))
  (at level 61, m at next level, right associativity) : eff_scope.
Notation "m ;;; k" := (bind m (fun _ => k))
  (at level 61, right associativity) : eff_scope.
Local Open Scope eff_scope.

Definition trace {A} (m : Eff A) : list event := fst m.
Definition result {A} (m : Eff A) : outcome A := snd m.

(** A settled promise. *)
Inductive Promise (A : Type) :=
| Fulfilled (a : A)
| Rejected (e : Thrown).
Arguments Fulfilled {A} a.
Arguments Rejected {A} e.

(** [await p] *)
Definition await {A} (p : Promise A) : Eff A :=
  match p with
  | Fulfilled a => ret a
  | Rejected e => throw e
  end.

(** [p.catch(h)] for a handler that does not throw. *)
Definition promise_catch {A} (p : Promise A) (h : Thrown -> A) : Promise A :=
  match p with
  | Fulfilled a => Fulfilled a
  | Rejected e => Fulfilled (h e)
  end.

(** [p] seen at the type of [p.catch(() => null)]. *)
Definition nullable {A} (p : Promise A) : Promise (option A) :=
  match p with
  | Fulfilled a => Fulfilled (Some a)
  | Rejected e => Rejected e
  end.

(** A call that emits nothing and ends as [o] says. *)
Definition performs {A} (o : outcome A) : Eff A := ([], o).

Definition console_warn (label : jsstring) (e : Thrown) : Eff unit :=
  emit (ConsoleWarn label e).

(** ** The network *)

(** A [Blob] as [FileReader.readAsDataURL] sees it: the data URL it reads
    to, or [None] when the reader signals an error. *)
Record Blob := { readAsDataURL : option jsstring }.

Record Response := {
  status : N;
  text : Promise jsstring;     (* response.text() *)
  json : Promise JsValue;      (* response.json() *)
  blob : Promise Blob;         (* response.blob() *)
}.

(** [response.ok], the getter of the Fetch standard: the status is in the
    range 200 to 299. *)
Definition ok (r : Response) : bool :=
  (200 <=? status r)%N && (status r <=? 299)%N.

(** What a call of [fetch] does: throw at the call, or return a promise. *)
Inductive FetchOutcome :=
| FetchThrows (e : Thrown)
| FetchReturns (p : Promise Response).

(** The network as the extension sees it: method and URL to outcome. *)
Definition Network := jsstring -> jsstring -> FetchOutcome.

(** [fetch(url, { method, ... })] *)
Definition fetch (net : Network) (method url : jsstring)
  : Eff (Promise Response) :=
  emit (FetchCall method url) ;;;
  match net method url with
  | FetchThrows e => throw e
  | FetchReturns p => ret p
  end.

(** The string literals of the source that are not ASCII. *)
Module Text.
Local Open Scope N_scope.

(** ["Canvas 跨域污染，跳过:"] *)
Definition warn_canvas : jsstring :=
  [67; 97; 110; 118; 97; 115; 32; 36328; 22495; 27745; 26579; 65292; 36339;
   36807; 58].

(** ["无法获取图片 base64，保留 URL:"] *)
Definition warn_fetch : jsstring :=
  [26080; 27861; 33719; 21462; 22270; 29255; 32; 98; 97; 115; 101; 54; 52;
   65292; 20445; 30041; 32; 85; 82; 76; 58].

(** ["处理图片时出错，跳过:"] *)
Definition warn_image : jsstring :=
  [22788; 29702; 22270; 29255; 26102; 20986; 38169; 65292; 36339; 36807; 58].

(** ['图片加载超时'] *)
Definition load_timeout : jsstring :=
  [22270; 29255; 21152; 36733; 36229; 26102].

(** ['无法获取图片: '] *)
Definition cannot_get_image : jsstring :=
  [26080; 27861; 33719; 21462; 22270; 29255; 58; 32].

(** ['采集数据时出错: '] *)
Definition capture_failed : jsstring :=
  [37319; 38598; 25968; 25454; 26102; 20986; 38169; 58; 32].

(** ["API 返回错误 ("], the text before the status code *)
Definition api_error_prefix : jsstring :=
  [65; 80; 73; 32; 36820; 22238; 38169; 35823; 32; 40].

(** ['无法读取错误信息'], the placeholder for an unreadable body *)
Definition unreadable_body : jsstring :=
  [26080; 27861; 35835; 21462; 38169; 35823; 20449; 24687].

(** The message that replaces a network error; its three numbered lines
    name the backend, the endpoint and the network. *)
Definition network_message : jsstring :=
  [26080; 27861; 36830; 25509; 21040; 32; 65; 80; 73; 65292; 35831; 26816;
   26597; 65306; 10; 49; 46; 32; 21518; 31471; 26381; 21153; 26159; 21542;
   36816; 34892; 10; 50; 46; 32; 65; 80; 73; 32; 69; 110; 100; 112; 111;
   105; 110; 116; 32; 26159; 21542; 27491; 30830; 10; 51; 46; 32; 32593;
   32476; 36830; 25509; 26159; 21542; 27491; 24120].

End Text.

(** ** Asset harvesting ([content.js]) *)

Inductive AssetType := canvas_chart | image.

(** An entry of the [assets] array; an absent property is [None]. *)
Record Asset := {
  type : AssetType;
  base64 : option jsstring;
  src_url : option jsstring;
  width : N;
  height : N;
}.

(** A [canvas] element: its size and what [toDataURL("image/png")] does
    (a tainted canvas throws a SecurityError). *)
Record Canvas := {
  canvas_width : N;
  canvas_height : N;
  toDataURL : outcome jsstring;
}.

(** How the wait for an unfinished image ends: [onload], [onerror], or the
    five-second timer. *)
Inductive LoadSignal := Loaded | LoadFailed | TimedOut.

(** An [img] element. *)
Record Img := {
  complete : bool;
  load_signal : LoadSignal;
  src : jsstring;                  (* img.src *)
  src_attribute : option jsstring; (* img.getAttribute('src') *)
  naturalWidth : N;
  naturalHeight : N;
}.

Definition processCanvas (canvas : Canvas) : Eff (option Asset) :=
  try_catch
    (if (canvas_width canvas =? 0)%N || (canvas_height canvas =? 0)%N then
       ret None
     else
       dataURL <- performs (toDataURL canvas) ;;
       ret (Some {| type := canvas_chart;
                    base64 := Some dataURL;
                    src_url := None;
                    width := canvas_width canvas;
                    height := canvas_height canvas |}))
    (fun error =>
       console_warn Text.warn_canvas error ;;;
       ret None).

(** The promise [processImage] waits on when [img.complete] is false. *)
Definition load_promise (img : Img) : Promise unit :=
  match load_signal img with
  | Loaded => Fulfilled tt
  | LoadFailed => Rejected ErrorEvent
  | TimedOut => Rejected (Error Text.load_timeout)
  end.

(** The promise around the [FileReader]: [onerror] fires before
    [onloadend], so a failed read rejects with the error event. *)
Definition reader_promise (b : Blob) : Promise jsstring :=
  match readAsDataURL b with
  | Some dataURL => Fulfilled dataURL
  | None => Rejected ErrorEvent
  end.

(** [imageUrlToBase64].  The reader's promise is returned from inside the
    [try] without being awaited there, so its rejection reaches the caller
    as it is. *)
Definition imageUrlToBase64 (net : Network) (url : jsstring) : Eff jsstring :=
  p <- try_catch
         (fetched <- fetch net (lit "GET") url ;;   (* no method: GET *)
          response <- await fetched ;;
          if negb (ok response) then
            throw (Error (lit "HTTP " ++ of_number (status response)))
          else
            blob <- await (blob response) ;;
            ret (reader_promise blob))
         (fun error =>
            throw (Error (Text.cannot_get_image ++ message_text error))) ;;
  await p.

(** JavaScript's [a || b] on strings: the empty string is falsy. *)
Definition str_or (a b : jsstring) : jsstring :=
  match a with
  | [] => b
  | _ :: _ => a
  end.

(** [img.src || img.getAttribute('src') || ''] *)
Definition image_source (img : Img) : jsstring :=
  str_or (str_or (src img)
                 (match src_attribute img with Some a => a | None => [] end))
         [].

Definition isBase64 (img : Img) : bool :=
  startsWith (lit "data:image/") (image_source img).

Definition isLargeEnough (img : Img) : bool :=
  (300 <=? naturalWidth img)%N && (300 <=? naturalHeight img)%N.

Definition processImage (net : Network) (img : Img) : Eff (option Asset) :=
  try_catch
    ((if negb (complete img) then await (load_promise img) else ret tt) ;;;
     let src := image_source img in
     if negb (isBase64 img) && negb (isLargeEnough img) then
       ret None
     else if isBase64 img then
       ret (Some {| type := image;
                    base64 := Some src;
                    src_url := None;
                    width := naturalWidth img;
                    height := naturalHeight img |})
     else
       try_catch
         (b64 <- imageUrlToBase64 net src ;;
          ret (Some {| type := image;
                       base64 := Some b64;
                       src_url := Some src;
                       width := naturalWidth img;
                       height := naturalHeight img |}))
         (fun fetchError =>
            console_warn Text.warn_fetch fetchError ;;;
            ret (Some {| type := image;
                         base64 := None;
                         src_url := Some src;
                         width := naturalWidth img;
                         height := naturalHeight img |})))
    (fun error =>
       console_warn Text.warn_image error ;;;
       ret None).

(** [assets.push(a)] when [a] is not null. *)
Definition push_if (assets : list Asset) (a : option Asset) : list Asset :=
  match a with
  | Some x => assets ++ [x]
  | None => assets
  end.

(** The first loop of [extractAssets], over the canvases in document
    order, with the array built so far. *)
Fixpoint canvas_loop (canvases : list Canvas) (assets : list Asset)
  : Eff (list Asset) :=
  match canvases with
  | [] => ret assets
  | canvas :: rest =>
      canvasAsset <- processCanvas canvas ;;
      canvas_loop rest (push_if assets canvasAsset)
  end.

(** The second loop, over the images. *)
Fixpoint image_loop (net : Network) (images : list Img) (assets : list Asset)
  : Eff (list Asset) :=
  match images with
  | [] => ret assets
  | img :: rest =>
      imageAsset <- processImage net img ;;
      image_loop net rest (push_if assets imageAsset)
  end.

(** The page a capture runs in; [canvases] and [images] are the results of
    the two [querySelectorAll] calls, in document order. *)
Record Page := {
  location : Location;
  title : jsstring;
  outerHTML : jsstring;
  canvases : list Canvas;
  images : list Img;
}.

Definition extractAssets (net : Network) (page : Page) : Eff (list Asset) :=
  assets <- canvas_loop (canvases page) [] ;;
  image_loop net (images page) assets.

Record Metadata := {
  meta_url : jsstring;
  meta_title : jsstring;
  meta_domain : jsstring;
}.

Definition extractMetadata (page : Page) : Metadata :=
  {| meta_url := href (location page);
     meta_title := title page;
     meta_domain := hostname (location page) |}.

Record CaptureBundle := {
  bundle_url : jsstring;
  bundle_domain : jsstring;
  bundle_title : jsstring;
  htmlSnapshot : jsstring;
  assets : list Asset;
}.

Definition capturePageData (net : Network) (page : Page) : Eff CaptureBundle :=
  try_catch
    (let metadata := extractMetadata page in
     let html := generateHtmlSnapshot (location page) (outerHTML page) in
     harvested <- extractAssets net page ;;
     ret {| bundle_url := meta_url metadata;
            bundle_domain := meta_domain metadata;
            bundle_title := meta_title metadata;
            htmlSnapshot := html;
            assets := harvested |})
    (fun error =>
       throw (Error (Text.capture_failed ++ message_text error))).

(** ** The privileged relay ([background.js]) *)

(** [error.message.includes(s)]; reading [includes] off an undefined
    message throws a TypeError. *)
Definition message_includes (s : jsstring) (e : Thrown) : Eff bool :=
  match message e with
  | Some m => ret (includes s m)
  | None =>
      throw (Error (lit "Cannot read properties of undefined (reading 'includes')"))
  end.

(** The [try] block of [sendToApi]. *)
Definition sendToApi_try (net : Network) (endpoint : jsstring)
  (payload : JsValue) : Eff JsValue :=
  fetched <- fetch net (lit "POST") endpoint ;;
  response <- await fetched ;;
  if negb (ok response) then
    errorData <- await (promise_catch (text response)
                          (fun _ => Text.unreadable_body)) ;;
    throw (Error (Text.api_error_prefix ++ of_number (status response)
                    ++ lit "): " ++ substring0 100 errorData))
  else
    responseData <- await (promise_catch (json response)
                             (fun _ => JObject [])) ;;
    ret responseData.

(** Its [catch] block. *)
Definition sendToApi_catch (error : Thrown) : Eff JsValue :=
  failed_to_fetch <- message_includes (lit "Failed to fetch") error ;;
  network_error <-
    (if failed_to_fetch then ret true
     else message_includes (lit "NetworkError") error) ;;
  if network_error then throw (Error Text.network_message)
  else throw error.

Definition sendToApi (net : Network) (endpoint : jsstring) (payload : JsValue)
  : Eff JsValue :=
  try_catch (sendToApi_try net endpoint payload) sendToApi_catch.

Inductive ApiStatus := connected | unknown | failed.

Definition checkApiStatus (net : Network) (endpoint : jsstring)
  : Eff ApiStatus :=
  try_catch
    (fetched <- fetch net (lit "OPTIONS") endpoint ;;
     response <- await (promise_catch (nullable fetched) (fun _ => None)) ;;
     match response with
     | Some r =>
         if ok r || (status r =? 405)%N then ret connected else ret unknown
     | None => ret unknown
     end)
    (fun error => ret failed).

(** ** Definitions used to state the properties *)

(** What a canvas contributes to the assets: the asset [processCanvas]
    returns, if any. *)
Definition canvas_assets (cs : list Canvas) : list Asset :=
  flat_map (fun c => match result (processCanvas c) with
                     | Return (Some a) => [a]
                     | _ => []
                     end) cs.

Definition image_assets (net : Network) (imgs : list Img) : list Asset :=
  flat_map (fun i => match result (processImage net i) with
                     | Return (Some a) => [a]
                     | _ => []
                     end) imgs.

(** The image was loaded when [processImage] looked at it, or finished
    loading while it waited. *)
Definition loads (img : Img) : bool :=
  complete img ||
  match load_signal img with Loaded => true | _ => false end.

(** Fetching [url] or converting what was fetched fails: the call throws or
    rejects, the status is not a success, the body cannot be read as a blob,
    or the reader signals an error. *)
Definition fetch_or_conversion_fails (net : Network) (url : jsstring) : bool :=
  match net (lit "GET") url with
  | FetchThrows _ => true
  | FetchReturns (Rejected _) => true
  | FetchReturns (Fulfilled r) =>
      negb (ok r) ||
      match blob r with
      | Rejected _ => true
      | Fulfilled b =>
          match readAsDataURL b with
          | None => true
          | Some _ => false
          end
      end
  end.

Definition is_fetch (ev : event) : bool :=
  match ev with
  | FetchCall _ _ => true
  | ConsoleWarn _ _ => false
  end.

(** The body text [sendToApi] puts into its error: what [response.text()]
    gives, or the placeholder, cut to 100 code units. *)
Definition error_body (r : Response) : jsstring :=
  substring0 100
    (match text r with
     | Fulfilled body => body
     | Rejected _ => Text.unreadable_body
     end).

(** Position of the first occurrence of the code unit [c] in [s]. *)
Fixpoint index_of (c : N) (s : jsstring) : option nat :=
  match s with
  | [] => None
  | ch :: s' => if N.eqb ch c then Some 0 else option_map S (index_of c s')
  end.

(** [s] starts with the characters [w], letter case aside. *)
Fixpoint starts_ci (w s : jsstring) : bool :=
  match w, s with
  | [], _ => true
  | _ :: _, [] => false
  | c :: w', ch :: s' => chr_matches c ch && starts_ci w' s'
  end.

(** No character of [w] matches [>]. *)
Definition gt_free (w : jsstring) : bool :=
  forallb (fun c => negb (chr_matches c 62)) w.

(** The literal part of [tag name]. *)
Definition tag_open (name : string) : jsstring := 60%N :: lit name.

(** The number a string of decimal digits denotes. *)
Definition to_number (s : jsstring) : N :=
  fold_left (fun v c => (10 * v + (c - 48))%N) s 0%N.

(** Whether two decimal digits stand next to each other in [s]. *)
Fixpoint has_digit_pair (s : jsstring) : bool :=
  match s with
  | a :: (b :: _) as s' => (is_digit a && is_digit b) || has_digit_pair s'
  | _ => false
  end.

(** ** Sample inputs *)

(** String equality, [a === b]. *)
Fixpoint str_eqb (a b : jsstring) : bool :=
  match a, b with
  | [], [] => true
  | x :: a', y :: b' => N.eqb x y && str_eqb a' b'
  | _, _ => false
  end.

Definition sample_png : jsstring := lit "data:image/png;base64,iVBORw0KGgo=".

Definition sample_response (st : N) (body : jsstring) : Response :=
  {| status := st;
     text := Fulfilled body;
     json := Rejected (Error (lit "Unexpected token"));
     blob := Fulfilled {| readAsDataURL := Some sample_png |} |}.

(** A network on which one image URL is reachable and every other request
    is refused. *)
Definition sample_net : Network :=
  fun method url =>
    if str_eqb url (lit "https://cdn.example/chart.png") then
      FetchReturns (Fulfilled (sample_response 200 []))
    else
      FetchReturns (Rejected (Error (lit "Failed to fetch"))).

(** A network that answers every request with the given response. *)
Definition answering (r : Response) : Network :=
  fun _ _ => FetchReturns (Fulfilled r).

(** A network on which the call of [fetch] itself throws. *)
Definition throwing (e : Thrown) : Network :=
  fun _ _ => FetchThrows e.

(** A network on which nothing can be reached: every [fetch] rejects. *)
Definition unreachable : Network :=
  fun _ _ => FetchReturns (Rejected (Error (lit "Failed to fetch"))).

(** [DEFAULT_API_ENDPOINT] of [popup.js]. *)
Definition default_endpoint : jsstring :=
  lit "http://localhost:8000/api/ingest/extension".

Definition sample_canvas : Canvas :=
  {| canvas_width := 800; canvas_height := 400;
     toDataURL := Return sample_png |}.

Definition empty_canvas : Canvas :=
  {| canvas_width := 0; canvas_height := 150;
     toDataURL := Return sample_png |}.

Definition tainted_canvas : Canvas :=
  {| canvas_width := 640; canvas_height := 480;
     toDataURL := Throw (Error (lit "The canvas has been tainted by cross-origin data")) |}.

Definition sample_image : Img :=
  {| complete := true; load_signal := Loaded;
     src := lit "https://cdn.example/chart.png";
     src_attribute := Some (lit "/chart.png");
     naturalWidth := 320; naturalHeight := 320 |}.

Definition icon_image : Img :=
  {| complete := true; load_signal := Loaded;
     src := lit "https://cdn.example/icon.png";
     src_attribute := Some (lit "icon.png");
     naturalWidth := 16; naturalHeight := 16 |}.

Definition inline_image : Img :=
  {| complete := true; load_signal := Loaded;
     src := sample_png;
     src_attribute := Some sample_png;
     naturalWidth := 1; naturalHeight := 1 |}.

Definition blocked_image : Img :=
  {| complete := false; load_signal := Loaded;
     src := lit "https://other.example/photo.jpg";
     src_attribute := Some (lit "https://other.example/photo.jpg");
     naturalWidth := 1024; naturalHeight := 768 |}.

Definition sample_location : Location :=
  {| href := lit "https://a.example/reports/q3?tab=2#chart";
     protocol := lit "https:";
     host := lit "a.example";
     hostname := lit "a.example";
     pathname := lit "/reports/q3" |}.

Definition sample_page : Page :=
  {| location := sample_location;
     title := lit "Q3";
     outerHTML := lit "<html><head><title>Q3</title></head><body></body></html>";
     canvases := [sample_canvas];
     images := [sample_image] |}.

(** ** Well-formed assets *)

(** What every entry of the [assets] array looks like.  A canvas asset has
    its pixels and a size that is not empty, and no URL.  An image asset
    has a URL, and then natural dimensions of at least 300 by 300, or it has
    none, and then its [base64] is an inline [data:image/] source. *)
Definition asset_ok (a : Asset) : Prop :=
  match type a with
  | canvas_chart =>
      (exists png, base64 a = Some png) /\ src_url a = None /\
      width a <> 0%N /\ height a <> 0%N
  | image =>
      match src_url a with
      | Some _ => (300 <= width a)%N /\ (300 <= height a)%N
      | None =>
          exists s, base64 a = Some s /\
                    startsWith (lit "data:image/") s = true
      end
  end.

(** A network on which the server answers, with a status of its choice and
    a body that cannot be read. *)
Definition unreadable_response (st : N) : Response :=
  {| status := st;
     text := Rejected (Error (lit "body stream already read"));
     json := Rejected (Error (lit "body stream already read"));
     blob := Rejected (Error (lit "body stream already read")) |}.

(** An image that is still loading when the five seconds are over. *)
Definition stalled_image : Img :=
  {| complete := false; load_signal := TimedOut;
     src := lit "https://slow.example/banner.png";
     src_attribute := Some (lit "banner.png");
     naturalWidth := 0; naturalHeight := 0 |}.

(** ** Messages between the three scripts *)

(** The body of the upload as [popup.js] assembles it.  A field the capture
    result lacks is undefined, and absent from the JSON text. *)
Record UploadPayload := {
  user_id : jsstring;
  source_url : option jsstring;
  payload_domain : option jsstring;
  payload_title : option jsstring;
  html_snapshot : option jsstring;
  captured_at : jsstring;
  payload_assets : list Asset;
}.

(** A message, by its [action]. *)
Inductive Message :=
| Capture
| SendToApi (endpoint : jsstring) (payload : UploadPayload)
| CheckApiStatus (endpoint : jsstring)
| Unrelated.   (* any other action *)

(** What the content script answers to [Capture]: [success], and either
    the fields of the bundle or [error]. *)
Record CaptureResult := {
  capture_success : bool;
  capture_error : option jsstring;
  capture_url : option jsstring;
  capture_domain : option jsstring;
  capture_title : option jsstring;
  capture_htmlSnapshot : option jsstring;
  capture_assets : option (list Asset);
}.

(** What the background worker answers. *)
Record RelayReply := {
  reply_success : bool;
  reply_response : option JsValue;
  reply_status : option ApiStatus;
  reply_error : option jsstring;
}.

(** One run of an [onMessage] listener. *)
Record Handled (R : Type) := {
  keeps_channel : bool;                (* the listener returned true *)
  sent : option R;                     (* the argument of sendResponse *)
  effects : list event;                (* fetches and warnings *)
  logged : list (jsstring * Thrown);   (* console.error *)
}.
Arguments keeps_channel {R} h.
Arguments sent {R} h.
Arguments effects {R} h.
Arguments logged {R} h.

Definition ignored {R} : Handled R :=
  {| keeps_channel := false; sent := None; effects := []; logged := [] |}.

(** The JSON value of an optional property. *)
Definition optional_field (key : string) (v : option jsstring)
  : list (jsstring * JsValue) :=
  match v with
  | Some s => [(lit key, JString s)]
  | None => []
  end.

Definition asset_value (a : Asset) : JsValue :=
  JObject
    ([(lit "type",
       JString match type a with
               | canvas_chart => lit "canvas_chart"
               | image => lit "image"
               end)]
       ++ optional_field "base64" (base64 a)
       ++ optional_field "src_url" (src_url a)
       ++ [(lit "width", JNumber (width a));
           (lit "height", JNumber (height a))]).

(** The payload as the relay receives it. *)
Definition payload_value (p : UploadPayload) : JsValue :=
  JObject
    ([(lit "user_id", JString (user_id p))]
       ++ optional_field "source_url" (source_url p)
       ++ optional_field "domain" (payload_domain p)
       ++ optional_field "title" (payload_title p)
       ++ optional_field "html_snapshot" (html_snapshot p)
       ++ [(lit "captured_at", JString (captured_at p));
           (lit "assets", JArray (map asset_value (payload_assets p)))]).

(** The string literals of the listeners and of [popup.js] that are not
    ASCII. *)
Module Label.
Local Open Scope N_scope.

(** ['连接未知（请检查后端服务是否运行）'] *)
Definition status_unknown : jsstring :=
  [36830; 25509; 26410; 30693; 65288; 35831; 26816; 26597; 21518; 31471;
   26381; 21153; 26159; 21542; 36816; 34892; 65289].

(** ['已连接'] *)
Definition status_connected : jsstring :=
  [24050; 36830; 25509].

(** ['连接失败'] *)
Definition status_failed : jsstring :=
  [36830; 25509; 22833; 36133].

(** ['连接失败: '] *)
Definition status_failed_with : jsstring :=
  [36830; 25509; 22833; 36133; 58; 32].

(** ['请先配置 User ID'] *)
Definition need_user_id : jsstring :=
  [35831; 20808; 37197; 32622; 32; 85; 115; 101; 114; 32; 73; 68].

(** ['正在处理 DOM...'] *)
Definition progress_dom : jsstring :=
  [27491; 22312; 22788; 29702; 32; 68; 79; 77; 46; 46; 46].

(** ['无法获取当前标签页'] *)
Definition no_active_tab : jsstring :=
  [26080; 27861; 33719; 21462; 24403; 21069; 26631; 31614; 39029].

(** ['正在提取图表...'] *)
Definition progress_charts : jsstring :=
  [27491; 22312; 25552; 21462; 22270; 34920; 46; 46; 46].

(** ['无法与页面通信，请刷新页面后重试'] *)
Definition page_unreachable : jsstring :=
  [26080; 27861; 19982; 39029; 38754; 36890; 20449; 65292; 35831; 21047;
   26032; 39029; 38754; 21518; 37325; 35797].

(** ['未收到采集结果'] *)
Definition no_capture_result : jsstring :=
  [26410; 25910; 21040; 37319; 38598; 32467; 26524].

(** ['采集失败'] *)
Definition capture_failed_plain : jsstring :=
  [37319; 38598; 22833; 36133].

(** ['正在上传数据...'] *)
Definition progress_upload : jsstring :=
  [27491; 22312; 19978; 20256; 25968; 25454; 46; 46; 46].

(** ['上传失败'] *)
Definition upload_failed : jsstring :=
  [19978; 20256; 22833; 36133].

(** ['上传成功！已采集 '], the text before the number of assets *)
Definition uploaded_prefix : jsstring :=
  [19978; 20256; 25104; 21151; 65281; 24050; 37319; 38598; 32].

(** [' 个资源'], the text behind the number of assets *)
Definition uploaded_suffix : jsstring :=
  [32; 20010; 36164; 28304].

(** ['无法发送数据到后台服务: '] *)
Definition relay_unreachable : jsstring :=
  [26080; 27861; 21457; 36865; 25968; 25454; 21040; 21518; 21488; 26381;
   21153; 58; 32].

(** ['采集失败: '] *)
Definition capture_failed_with : jsstring :=
  [37319; 38598; 22833; 36133; 58; 32].

(** ['请输入 API Endpoint'] *)
Definition enter_endpoint : jsstring :=
  [35831; 36755; 20837; 32; 65; 80; 73; 32; 69; 110; 100; 112; 111; 105;
   110; 116].

(** ['请输入 User ID'] *)
Definition enter_user_id : jsstring :=
  [35831; 36755; 20837; 32; 85; 115; 101; 114; 32; 73; 68].

(** ['API Endpoint 格式不正确'] *)
Definition bad_endpoint : jsstring :=
  [65; 80; 73; 32; 69; 110; 100; 112; 111; 105; 110; 116; 32; 26684; 24335;
   19981; 27491; 30830].

(** ['配置已保存'] *)
Definition config_saved : jsstring :=
  [37197; 32622; 24050; 20445; 23384].

(** ['保存配置失败: '] *)
Definition save_failed_with : jsstring :=
  [20445; 23384; 37197; 32622; 22833; 36133; 58; 32].

(** ['加载配置失败: '] *)
Definition load_failed_with : jsstring :=
  [21152; 36733; 37197; 32622; 22833; 36133; 58; 32].

(** ['加载配置失败:'] *)
Definition log_load_failed : jsstring :=
  [21152; 36733; 37197; 32622; 22833; 36133; 58].

(** ['保存配置失败:'] *)
Definition log_save_failed : jsstring :=
  [20445; 23384; 37197; 32622; 22833; 36133; 58].

(** ['Content script 可能已存在:'] *)
Definition log_script_present : jsstring :=
  [67; 111; 110; 116; 101; 110; 116; 32; 115; 99; 114; 105; 112; 116; 32;
   21487; 33021; 24050; 23384; 22312; 58].

(** ['采集失败:'] *)
Definition log_capture_failed : jsstring :=
  [37319; 38598; 22833; 36133; 58].

(** ['采集错误:'], of the content script *)
Definition log_capture_error : jsstring :=
  [37319; 38598; 38169; 35823; 58].

(** ['API 请求失败:'], of the background worker *)
Definition log_api_failed : jsstring :=
  [65; 80; 73; 32; 35831; 27714; 22833; 36133; 58].
End Label.

(** The listener of [content.js]. *)
Definition content_onMessage (net : Network) (page : Page) (request : Message)
  : Handled CaptureResult :=
  match request with
  | Capture =>
      match capturePageData net page with
      | (t, Return data) =>
          {| keeps_channel := true;
             sent := Some {| capture_success := true;
                             capture_error := None;
                             capture_url := Some (bundle_url data);
                             capture_domain := Some (bundle_domain data);
                             capture_title := Some (bundle_title data);
                             capture_htmlSnapshot := Some (htmlSnapshot data);
                             capture_assets := Some (assets data) |};
             effects := t;
             logged := [] |}
      | (t, Throw error) =>
          {| keeps_channel := true;
             sent := Some {| capture_success := false;
                             capture_error := message error;
                             capture_url := None;
                             capture_domain := None;
                             capture_title := None;
                             capture_htmlSnapshot := None;
                             capture_assets := None |};
             effects := t;
             logged := [(Label.log_capture_error, error)] |}
      end
  | _ => ignored
  end.

(** The listener of [background.js]. *)
Definition background_onMessage (net : Network) (request : Message)
  : Handled RelayReply :=
  match request with
  | SendToApi endpoint payload =>
      match sendToApi net endpoint (payload_value payload) with
      | (t, Return response) =>
          {| keeps_channel := true;
             sent := Some {| reply_success := true;
                             reply_response := Some response;
                             reply_status := None;
                             reply_error := None |};
             effects := t;
             logged := [] |}
      | (t, Throw error) =>
          {| keeps_channel := true;
             sent := Some {| reply_success := false;
                             reply_response := None;
                             reply_status := None;
                             reply_error := message error |};
             effects := t;
             logged := [(Label.log_api_failed, error)] |}
      end
  | CheckApiStatus endpoint =>
      match checkApiStatus net endpoint with
      | (t, Return status) =>
          {| keeps_channel := true;
             sent := Some {| reply_success := true;
                             reply_response := None;
                             reply_status := Some status;
                             reply_error := None |};
             effects := t;
             logged := [] |}
      | (t, Throw error) =>
          {| keeps_channel := true;
             sent := Some {| reply_success := false;
                             reply_response := None;
                             reply_status := None;
                             reply_error := message error |};
             effects := t;
             logged := [] |}
      end
  | _ => ignored
  end.

(** What [sendMessage] resolves to when a listener ran: the response it
    sent, or undefined. *)
Definition delivered {R} (h : Handled R) : Promise (option R) :=
  Fulfilled (sent h).

(** ** The popup ([popup.js]) *)

Module PopupJs.

(** One of the three feedback lines: its text and its class list. *)
Record Feedback := {
  textContent : jsstring;
  classList : list jsstring;
}.

Record Dom := {
  apiEndpointInput : jsstring;   (* apiEndpointInput.value *)
  userIdInput : jsstring;   (* userIdInput.value *)
  statusIndicator : jsstring;   (* statusIndicator.className *)
  statusText : jsstring;   (* statusText.textContent *)
  currentEndpoint : jsstring;   (* currentEndpoint.textContent *)
  currentUserId : jsstring;   (* currentUserId.textContent *)
  progressText : Feedback;
  errorText : Feedback;
  successText : Feedback;
}.

Definition set_apiEndpointInput (v : jsstring) (d : Dom) : Dom :=
  {| apiEndpointInput := v;
     userIdInput := userIdInput d;
     statusIndicator := statusIndicator d;
     statusText := statusText d;
     currentEndpoint := currentEndpoint d;
     currentUserId := currentUserId d;
     progressText := progressText d;
     errorText := errorText d;
     successText := successText d |}.

Definition set_userIdInput (v : jsstring) (d : Dom) : Dom :=
  {| apiEndpointInput := apiEndpointInput d;
     userIdInput := v;
     statusIndicator := statusIndicator d;
     statusText := statusText d;
     currentEndpoint := currentEndpoint d;
     currentUserId := currentUserId d;
     progressText := progressText d;
     errorText := errorText d;
     successText := successText d |}.

Definition set_statusIndicator (v : jsstring) (d : Dom) : Dom :=
  {| apiEndpointInput := apiEndpointInput d;
     userIdInput := userIdInput d;
     statusIndicator := v;
     statusText := statusText d;
     currentEndpoint := currentEndpoint d;
     currentUserId := currentUserId d;
     progressText := progressText d;
     errorText := errorText d;
     successText := successText d |}.

Definition set_statusText (v : jsstring) (d : Dom) : Dom :=
  {| apiEndpointInput := apiEndpointInput d;
     userIdInput := userIdInput d;
     statusIndicator := statusIndicator d;
     statusText := v;
     currentEndpoint := currentEndpoint d;
     currentUserId := currentUserId d;
     progressText := progressText d;
     errorText := errorText d;
     successText := successText d |}.

Definition set_currentEndpoint (v : jsstring) (d : Dom) : Dom :=
  {| apiEndpointInput := apiEndpointInput d;
     userIdInput := userIdInput d;
     statusIndicator := statusIndicator d;
     statusText := statusText d;
     currentEndpoint := v;
     currentUserId := currentUserId d;
     progressText := progressText d;
     errorText := errorText d;
     successText := successText d |}.

Definition set_currentUserId (v : jsstring) (d : Dom) : Dom :=
  {| apiEndpointInput := apiEndpointInput d;
     userIdInput := userIdInput d;
     statusIndicator := statusIndicator d;
     statusText := statusText d;
     currentEndpoint := currentEndpoint d;
     currentUserId := v;
     progressText := progressText d;
     errorText := errorText d;
     successText := successText d |}.

Definition set_progressText (v : Feedback) (d : Dom) : Dom :=
  {| apiEndpointInput := apiEndpointInput d;
     userIdInput := userIdInput d;
     statusIndicator := statusIndicator d;
     statusText := statusText d;
     currentEndpoint := currentEndpoint d;
     currentUserId := currentUserId d;
     progressText := v;
     errorText := errorText d;
     successText := successText d |}.

Definition set_errorText (v : Feedback) (d : Dom) : Dom :=
  {| apiEndpointInput := apiEndpointInput d;
     userIdInput := userIdInput d;
     statusIndicator := statusIndicator d;
     statusText := statusText d;
     currentEndpoint := currentEndpoint d;
     currentUserId := currentUserId d;
     progressText := progressText d;
     errorText := v;
     successText := successText d |}.

Definition set_successText (v : Feedback) (d : Dom) : Dom :=
  {| apiEndpointInput := apiEndpointInput d;
     userIdInput := userIdInput d;
     statusIndicator := statusIndicator d;
     statusText := statusText d;
     currentEndpoint := currentEndpoint d;
     currentUserId := currentUserId d;
     progressText := progressText d;
     errorText := errorText d;
     successText := v |}.

(** [chrome.storage.local], the two keys the popup uses. *)
Record Storage := {
  apiEndpoint : option jsstring;
  userId : option jsstring;
}.

Record State := {
  dom : Dom;
  storage : Storage;
}.

(** What the extension APIs do during one handler. *)
Record Chrome := {
  storage_get_error : option Thrown;   (* storage.local.get rejects *)
  storage_set_error : option Thrown;   (* storage.local.set rejects *)
  valid_url : jsstring -> bool;        (* new URL(s) does not throw *)
  tabs_query : Promise (option N);     (* the id of the active tab *)
  executeScript : option Thrown;       (* scripting.executeScript rejects *)
  tabs_sendMessage : Promise (option CaptureResult);
  runtime_sendMessage : Message -> Promise (option RelayReply);
  now : jsstring;                      (* new Date().toISOString() *)
}.

(** The calls a handler makes. *)
Inductive call :=
| ConsoleError (label : jsstring) (e : Thrown)
| ConsoleLog (label : jsstring) (e : Thrown)
| StorageSet (endpoint user : jsstring)
| TabsQuery
| ExecuteScript (tabId : N)
| TabsSendMessage (tabId : N) (m : Message)
| RuntimeSendMessage (m : Message).

(** A handler: from the state before to the state after, the calls made and
    how it ended. *)
Definition P (A : Type) : Type := State -> (State * list call * outcome A).

Definition pret {A} (a : A) : P A := fun s => (s, [], Return a).
Definition pthrow {A} (e : Thrown) : P A := fun s => (s, [], Throw e).

Definition pbind {A B} (m : P A) (k : A -> P B) : P B :=
  fun s =>
    match m s with
    | (s1, c1, Return a) =>
        match k a s1 with
        | (s2, c2, r) => (s2, c1 ++ c2, r)
        end
    | (s1, c1, Throw e) => (s1, c1, Throw e)
    end.

(** [try { m } catch (e) { h e }]; what [m] did to the page stays done. *)
Definition ptry {A} (m : P A) (h : Thrown -> P A) : P A :=
  fun s =>
    match m s with
    | (s1, c1, Return a) => (s1, c1, Return a)
    | (s1, c1, Throw e) =>
        match h e s1 with
        | (s2, c2, r) => (s2, c1 ++ c2, r)
        end
    end.

Definition does (c : call) : P unit := fun s => (s, [c], Return tt).

Definition update (f : Dom -> Dom) : P unit :=
  fun s => ({| dom := f (dom s); storage := storage s |}, [], Return tt).

Definition pawait {A} (p : Promise A) : P A :=
  match p with
  | Fulfilled a => pret a
  | Rejected e => pthrow e
  end.

Declare Scope popup_scope.
Delimit Scope popup_scope with popup.
Notation "x <- m ;; k" := (pbind m (fun x => k))
  (at level 61, m at next level, right associativity) : popup_scope.
Notation "m ;;; k" := (pbind m (fun _ => k))
  (at level 61, right associativity) : popup_scope.
Local Open Scope popup_scope.

(** [await chrome.storage.local.get(...)] *)
Definition storage_get (c : Chrome) : P Storage :=
  fun s =>
    match storage_get_error c with
    | Some e => (s, [], Throw e)
    | None => (s, [], Return (storage s))
    end.

(** [await chrome.storage.local.set({ apiEndpoint, userId })] *)
Definition storage_set (c : Chrome) (endpoint user : jsstring) : P unit :=
  fun s =>
    match storage_set_error c with
    | Some e => (s, [StorageSet endpoint user], Throw e)
    | None =>
        ({| dom := dom s;
            storage := {| apiEndpoint := Some endpoint;
                          userId := Some user |} |},
         [StorageSet endpoint user], Return tt)
    end.

(** A stored value as a condition sees it: undefined and the empty string
    are falsy. *)
Definition truthy (v : option jsstring) : option jsstring :=
  match v with
  | Some (_ :: _) => v
  | _ => None
  end.

(** [DEFAULT_API_ENDPOINT] *)
Definition DEFAULT_API_ENDPOINT : jsstring :=
  lit "http://localhost:8000/api/ingest/extension".

(** [result.apiEndpoint || DEFAULT_API_ENDPOINT] *)
Definition endpoint_or_default (st : Storage) : jsstring :=
  match truthy (apiEndpoint st) with
  | Some e => e
  | None => DEFAULT_API_ENDPOINT
  end.

(** [classList.add(token)] and [classList.remove(token)] *)
Definition classList_add (token : jsstring) (l : list jsstring)
  : list jsstring :=
  if existsb (str_eqb token) l then l else l ++ [token].

Definition classList_remove (token : jsstring) (l : list jsstring)
  : list jsstring :=
  filter (fun c => negb (str_eqb token c)) l.

Definition hide (f : Feedback) : Feedback :=
  {| textContent := textContent f;
     classList := classList_add (lit "hidden") (classList f) |}.

Definition reveal (message : jsstring) (f : Feedback) : Feedback :=
  {| textContent := message;
     classList := classList_remove (lit "hidden") (classList f) |}.

Definition showProgress (message : jsstring) : P unit :=
  update (fun d => set_progressText (reveal message (progressText d)) d) ;;;
  update (fun d => set_errorText (hide (errorText d)) d) ;;;
  update (fun d => set_successText (hide (successText d)) d).

Definition showError (message : jsstring) : P unit :=
  update (fun d => set_errorText (reveal message (errorText d)) d) ;;;
  update (fun d => set_successText (hide (successText d)) d) ;;;
  update (fun d => set_progressText (hide (progressText d)) d).

Definition showSuccess (message : jsstring) : P unit :=
  update (fun d => set_successText (reveal message (successText d)) d) ;;;
  update (fun d => set_errorText (hide (errorText d)) d) ;;;
  update (fun d => set_progressText (hide (progressText d)) d).

Definition cleared (f : Feedback) : Feedback :=
  {| textContent := [];
     classList := classList_add (lit "hidden") (classList f) |}.

Definition clearFeedback : P unit :=
  update (fun d => set_progressText (cleared (progressText d)) d) ;;;
  update (fun d => set_errorText (cleared (errorText d)) d) ;;;
  update (fun d => set_successText (cleared (successText d)) d).

Definition loadConfig (c : Chrome) : P unit :=
  ptry
    (result <- storage_get c ;;
     (match truthy (apiEndpoint result) with
      | Some e =>
          update (set_apiEndpointInput e) ;;;
          update (set_currentEndpoint e)
      | None =>
          update (set_apiEndpointInput DEFAULT_API_ENDPOINT) ;;;
          update (set_currentEndpoint DEFAULT_API_ENDPOINT)
      end) ;;;
     match truthy (userId result) with
     | Some u =>
         update (set_userIdInput u) ;;;
         update (set_currentUserId u)
     | None => update (set_currentUserId (lit "-"))
     end)
    (fun error =>
       does (ConsoleError Label.log_load_failed error) ;;;
       showError (Label.load_failed_with ++ message_text error)).

(** The two assignments that set the status line. *)
Definition set_status (className text : jsstring) : P unit :=
  update (set_statusIndicator className) ;;;
  update (set_statusText text).

Definition checkApiStatus (c : Chrome) : P unit :=
  ptry
    (result <- storage_get c ;;
     let endpoint := endpoint_or_default result in
     does (RuntimeSendMessage (CheckApiStatus endpoint)) ;;;
     response <- pawait (runtime_sendMessage c (CheckApiStatus endpoint)) ;;
     match response with
     | None =>
         set_status (lit "status-indicator warning") Label.status_unknown
     | Some r =>
         if negb (reply_success r) then
           set_status (lit "status-indicator warning") Label.status_unknown
         else
           match reply_status r with
           | Some connected =>
               set_status (lit "status-indicator connected")
                          Label.status_connected
           | Some unknown =>
               set_status (lit "status-indicator warning")
                          Label.status_unknown
           | _ =>
               set_status (lit "status-indicator error") Label.status_failed
           end
     end)
    (fun error =>
       set_status (lit "status-indicator error")
                  (Label.status_failed_with ++ message_text error)).

(** The handler of [DOMContentLoaded]. *)
Definition onDOMContentLoaded (c : Chrome) : P unit :=
  loadConfig c ;;;
  checkApiStatus c.

(** White space and line terminators, what [trim] removes. *)
Definition is_space (ch : N) : bool :=
  existsb (N.eqb ch)
    [9; 10; 11; 12; 13; 32; 160; 5760; 8192; 8193; 8194; 8195; 8196; 8197;
     8198; 8199; 8200; 8201; 8202; 8232; 8233; 8239; 8287; 12288; 65279]%N.

Fixpoint trim_start (s : jsstring) : jsstring :=
  match s with
  | ch :: s' => if is_space ch then trim_start s' else s
  | [] => []
  end.

(** [s.trim()] *)
Definition trim (s : jsstring) : jsstring :=
  rev (trim_start (rev (trim_start s))).

(** The click handler of [saveConfigBtn]. *)
Definition onSaveConfig (c : Chrome) : P unit :=
  fun s =>
    let endpoint := trim (apiEndpointInput (dom s)) in
    let user := trim (userIdInput (dom s)) in
    match endpoint, user with
    | [], _ => showError Label.enter_endpoint s
    | _ :: _, [] => showError Label.enter_user_id s
    | _ :: _, _ :: _ =>
        if negb (valid_url c endpoint) then showError Label.bad_endpoint s
        else
          ptry
            (storage_set c endpoint user ;;;
             update (set_currentEndpoint endpoint) ;;;
             update (set_currentUserId user) ;;;
             showSuccess Label.config_saved ;;;
             checkApiStatus c)
            (fun error =>
               does (ConsoleError Label.log_save_failed error) ;;;
               showError (Label.save_failed_with ++ message_text error))
            s
    end.

(** [captureResult.error || '采集失败'] *)
Definition capture_error_text (r : CaptureResult) : jsstring :=
  match truthy (capture_error r) with
  | Some e => e
  | None => Label.capture_failed_plain
  end.

(** [apiResponse?.error || '上传失败'] *)
Definition upload_error_text (r : option RelayReply) : jsstring :=
  match r with
  | Some reply =>
      match truthy (reply_error reply) with
      | Some e => e
      | None => Label.upload_failed
      end
  | None => Label.upload_failed
  end.

(** [captureResult.assets?.length || 0] *)
Definition asset_count (r : CaptureResult) : N :=
  match capture_assets r with
  | Some l => N.of_nat (List.length l)
  | None => 0%N
  end.

(** The payload of the upload. *)
Definition make_payload (c : Chrome) (user : jsstring) (r : CaptureResult)
  : UploadPayload :=
  {| user_id := user;
     source_url := capture_url r;
     payload_domain := capture_domain r;
     payload_title := capture_title r;
     html_snapshot := capture_htmlSnapshot r;
     captured_at := now c;
     payload_assets :=
       match capture_assets r with Some l => l | None => [] end |}.

(** The [try] block of the capture handler, from the tab on. *)
Definition capture_and_upload (c : Chrome) (endpoint user : jsstring)
  (tabId : N) : P unit :=
  ptry (does (ExecuteScript tabId) ;;;
        pawait match executeScript c with
               | Some e => Rejected e
               | None => Fulfilled tt
               end)
       (fun e => does (ConsoleLog Label.log_script_present e)) ;;;
  showProgress Label.progress_charts ;;;
  captureResult <-
    ptry (does (TabsSendMessage tabId Capture) ;;;
          pawait (tabs_sendMessage c))
         (fun _ => pthrow (Error Label.page_unreachable)) ;;
  match captureResult with
  | None => pthrow (Error Label.no_capture_result)
  | Some r =>
      if negb (capture_success r)
         || match truthy (capture_error r) with
            | Some _ => true
            | None => false
            end
      then pthrow (Error (capture_error_text r))
      else
        showProgress Label.progress_upload ;;;
        let request := SendToApi endpoint (make_payload c user r) in
        ptry
          (does (RuntimeSendMessage request) ;;;
           apiResponse <- pawait (runtime_sendMessage c request) ;;
           if match apiResponse with
              | Some reply => reply_success reply
              | None => false
              end
           then
             showSuccess (Label.uploaded_prefix ++ of_number (asset_count r)
                            ++ Label.uploaded_suffix)
           else pthrow (Error (upload_error_text apiResponse)))
          (fun messageError =>
             pthrow (Error (Label.relay_unreachable
                              ++ message_text messageError)))
  end.

(** The click handler of [captureBtn]. *)
Definition onCapture (c : Chrome) : P unit :=
  clearFeedback ;;;
  result <- storage_get c ;;
  let endpoint := endpoint_or_default result in
  match truthy (userId result) with
  | None => showError Label.need_user_id
  | Some user =>
      ptry
        (showProgress Label.progress_dom ;;;
         does TabsQuery ;;;
         tab <- pawait (tabs_query c) ;;
         match tab with
         | None => showError Label.no_active_tab
         | Some tabId => capture_and_upload c endpoint user tabId
         end)
        (fun error =>
           does (ConsoleError Label.log_capture_failed error) ;;;
           showError (Label.capture_failed_with ++ message_text error))
  end.

(** Whether a feedback line is shown. *)
Definition visible (f : Feedback) : bool :=
  negb (existsb (str_eqb (lit "hidden")) (classList f)).

(** The popup wired to the other two scripts: messages to the tab reach the
    listener of [content.js] on [page], messages to the extension reach the
    listener of [background.js]. *)
Definition wired (net : Network) (page : Page) (c : Chrome) : Chrome :=
  {| storage_get_error := storage_get_error c;
     storage_set_error := storage_set_error c;
     valid_url := valid_url c;
     tabs_query := tabs_query c;
     executeScript := executeScript c;
     tabs_sendMessage := delivered (content_onMessage net page Capture);
     runtime_sendMessage :=
       fun m => delivered (background_onMessage net m);
     now := now c |}.

End PopupJs.

(** Which of the three feedback lines are shown: progress, error,
    success. *)
Definition feedback_shown (d : PopupJs.Dom) : bool * bool * bool :=
  (PopupJs.visible (PopupJs.progressText d),
   PopupJs.visible (PopupJs.errorText d),
   PopupJs.visible (PopupJs.successText d)).

(** The popup shows only the error line, with this text. *)
Definition shows_error (d : PopupJs.Dom) (m : jsstring) : Prop :=
  feedback_shown d = (false, true, false) /\
  PopupJs.textContent (PopupJs.errorText d) = m.

(** The popup shows only the success line, with this text. *)
Definition shows_success (d : PopupJs.Dom) (m : jsstring) : Prop :=
  feedback_shown d = (false, false, true) /\
  PopupJs.textContent (PopupJs.successText d) = m.

(** The state, the calls and the end of a run of a handler. *)
Definition final {A} (r : PopupJs.State * list PopupJs.call * outcome A)
  : PopupJs.State := fst (fst r).
Definition calls {A} (r : PopupJs.State * list PopupJs.call * outcome A)
  : list PopupJs.call := snd (fst r).
Definition ending {A} (r : PopupJs.State * list PopupJs.call * outcome A)
  : outcome A := snd r.

(** A popup as it may look when a handler starts, and extension APIs on
    which everything works. *)
Definition sample_dom : PopupJs.Dom :=
  {| PopupJs.apiEndpointInput := lit "  http://localhost:9000/ingest ";
     PopupJs.userIdInput := lit " user_123";
     PopupJs.statusIndicator := lit "status-indicator";
     PopupJs.statusText := [];
     PopupJs.currentEndpoint := lit "-";
     PopupJs.currentUserId := lit "-";
     PopupJs.progressText :=
       {| PopupJs.textContent := lit "..."; PopupJs.classList := [lit "feedback"] |};
     PopupJs.errorText :=
       {| PopupJs.textContent := [];
          PopupJs.classList := [lit "feedback"; lit "hidden"] |};
     PopupJs.successText :=
       {| PopupJs.textContent := [];
          PopupJs.classList := [lit "hidden"; lit "feedback"] |} |}.

Definition configured : PopupJs.State :=
  {| PopupJs.dom := sample_dom;
     PopupJs.storage := {| PopupJs.apiEndpoint := None;
                           PopupJs.userId := Some (lit "user_123") |} |}.

Definition unconfigured : PopupJs.State :=
  {| PopupJs.dom := sample_dom;
     PopupJs.storage := {| PopupJs.apiEndpoint := None;
                           PopupJs.userId := None |} |}.

Definition sample_chrome : PopupJs.Chrome :=
  {| PopupJs.storage_get_error := None;
     PopupJs.storage_set_error := None;
     PopupJs.valid_url := startsWith (lit "http");
     PopupJs.tabs_query := Fulfilled (Some 7%N);
     PopupJs.executeScript := None;
     PopupJs.tabs_sendMessage := Fulfilled None;
     PopupJs.runtime_sendMessage := fun _ => Fulfilled None;
     PopupJs.now := lit "2024-01-01T12:00:00.000Z" |}.

(** * Properties *)

(** ** Asset harvesting *)

Lemma processCanvas_returns (c : Canvas) :
  exists t a, processCanvas c = (t, Return a).
Proof.
  unfold processCanvas.
  destruct ((canvas_width c =? 0)%N || (canvas_height c =? 0)%N).
  - exists [], None. reflexivity.
  - destruct (toDataURL c) as [d | e]; cbn; eauto.
Qed.

Lemma imageUrlToBase64_cases (net : Network) (url : jsstring) :
  (exists d, fetch_or_conversion_fails net url = false /\
             imageUrlToBase64 net url =
               ([FetchCall (lit "GET") url], Return d)) \/
  (exists e, fetch_or_conversion_fails net url = true /\
             imageUrlToBase64 net url =
               ([FetchCall (lit "GET") url], Throw e)).
Proof.
  unfold imageUrlToBase64, fetch_or_conversion_fails, fetch.
  destruct (net (lit "GET") url) as [e | [r | e]]; cbn.
  - right. eauto.
  - destruct (ok r); cbn.
    + destruct (blob r) as [b | e]; cbn.
      * unfold reader_promise. destruct (readAsDataURL b); cbn; eauto.
      * right. eauto.
    + right. eauto.
  - right. eauto.
Qed.

Lemma processImage_returns (net : Network) (img : Img) :
  exists t a, processImage net img = (t, Return a).
Proof.
  unfold processImage, load_promise.
  generalize (isBase64 img) (isLargeEnough img) (image_source img).
  intros b l s.
  destruct (imageUrlToBase64_cases net s) as [[d [_ Hf]] | [e [_ Hf]]];
    rewrite Hf; clear Hf;
    destruct (complete img), (load_signal img), b, l;
    eexists; eexists; reflexivity.
Qed.

Lemma canvas_loop_spec (cs : list Canvas) (acc : list Asset) :
  canvas_loop cs acc =
    (flat_map (fun c => trace (processCanvas c)) cs,
     Return (acc ++ canvas_assets cs)).
Proof.
  revert acc. induction cs as [| c cs IH]; intros acc; cbn.
  - unfold ret. now rewrite app_nil_r.
  - destruct (processCanvas_returns c) as [t [a Hc]].
    unfold canvas_assets in *. cbn. rewrite Hc. cbn. rewrite IH.
    f_equal. f_equal. destruct a; cbn; [now rewrite <- app_assoc | reflexivity].
Qed.

Lemma image_loop_spec (net : Network) (imgs : list Img) (acc : list Asset) :
  image_loop net imgs acc =
    (flat_map (fun i => trace (processImage net i)) imgs,
     Return (acc ++ image_assets net imgs)).
Proof.
  revert acc. induction imgs as [| i imgs IH]; intros acc; cbn.
  - unfold ret. now rewrite app_nil_r.
  - destruct (processImage_returns net i) as [t [a Hi]].
    unfold image_assets in *. cbn. rewrite Hi. cbn. rewrite IH.
    f_equal. f_equal. destruct a; cbn; [now rewrite <- app_assoc | reflexivity].
Qed.

Lemma extractAssets_spec (net : Network) (page : Page) :
  extractAssets net page =
    (flat_map (fun c => trace (processCanvas c)) (canvases page) ++
     flat_map (fun i => trace (processImage net i)) (images page),
     Return (canvas_assets (canvases page) ++
             image_assets net (images page))).
Proof.
  unfold extractAssets. rewrite canvas_loop_spec. cbn.
  rewrite image_loop_spec. reflexivity.
Qed.

Lemma capturePageData_spec (net : Network) (page : Page) :
  result (capturePageData net page) =
    Return {| bundle_url := href (location page);
              bundle_domain := hostname (location page);
              bundle_title := title page;
              htmlSnapshot :=
                generateHtmlSnapshot (location page) (outerHTML page);
              assets := canvas_assets (canvases page) ++
                        image_assets net (images page) |}.
Proof.
  unfold capturePageData. rewrite extractAssets_spec. reflexivity.
Qed.

(** The asset [processImage] emits for a source that could be inlined. *)
Lemma processImage_spec (net : Network) (img : Img) :
  result (processImage net img) =
    Return
      (if negb (loads img) then None
       else if negb (isBase64 img) && negb (isLargeEnough img) then None
       else if isBase64 img then
         Some {| type := image; base64 := Some (image_source img);
                 src_url := None;
                 width := naturalWidth img; height := naturalHeight img |}
       else
         Some {| type := image;
                 base64 :=
                   match result (imageUrlToBase64 net (image_source img)) with
                   | Return b64 => Some b64
                   | Throw _ => None
                   end;
                 src_url := Some (image_source img);
                 width := naturalWidth img; height := naturalHeight img |}).
Proof.
  unfold processImage, loads, load_promise.
  generalize (isBase64 img) (isLargeEnough img) (image_source img).
  intros b l s.
  destruct (imageUrlToBase64_cases net s) as [[d [_ Hf]] | [e [_ Hf]]];
    rewrite Hf; clear Hf;
    destruct (complete img), (load_signal img), b, l; reflexivity.
Qed.

Lemma processImage_inline_trace (net : Network) (img : Img) :
  isBase64 img = true ->
  forallb (fun ev => negb (is_fetch ev)) (trace (processImage net img)) = true.
Proof.
  intros Hb. unfold processImage, load_promise. rewrite Hb.
  destruct (complete img), (load_signal img); reflexivity.
Qed.

Lemma canvas_assets_type (cs : list Canvas) :
  Forall (fun a => type a = canvas_chart) (canvas_assets cs).
Proof.
  unfold canvas_assets. induction cs as [| c cs IH]; cbn; [constructor |].
  apply Forall_app. split; [| exact IH].
  unfold processCanvas.
  destruct ((canvas_width c =? 0)%N || (canvas_height c =? 0)%N); cbn;
    [constructor |].
  destruct (toDataURL c); cbn; repeat constructor.
Qed.

Lemma image_assets_type (net : Network) (imgs : list Img) :
  Forall (fun a => type a = image) (image_assets net imgs).
Proof.
  unfold image_assets. induction imgs as [| i imgs IH]; cbn; [constructor |].
  apply Forall_app. split; [| exact IH].
  rewrite processImage_spec.
  destruct (negb (loads i)); [constructor |].
  destruct (negb (isBase64 i) && negb (isLargeEnough i)); [constructor |].
  destruct (isBase64 i); repeat constructor.
Qed.

(** C5.  A canvas of width 0 or height 0 yields no asset.  A canvas whose
    [toDataURL] throws yields no asset either, only a logged warning: the
    assets of the page are those of the page without that canvas, and the
    capture as a whole still returns its bundle. *)
Theorem processCanvas_skips_empty_and_tainted :
  (forall c : Canvas,
      canvas_width c = 0%N \/ canvas_height c = 0%N ->
      processCanvas c = ([], Return None)) /\
  (forall (c : Canvas) (e : Thrown),
      canvas_width c <> 0%N -> canvas_height c <> 0%N ->
      toDataURL c = Throw e ->
      processCanvas c = ([ConsoleWarn Text.warn_canvas e], Return None)) /\
  (forall (net : Network) (page : Page) (before after : list Canvas)
          (c : Canvas) (t : list event),
      canvases page = before ++ c :: after ->
      processCanvas c = (t, Return None) ->
      result (extractAssets net page) =
        Return (canvas_assets before ++ canvas_assets after ++
                image_assets net (images page)) /\
      incl t (trace (extractAssets net page)) /\
      exists b, result (capturePageData net page) = Return b /\
                assets b = canvas_assets before ++ canvas_assets after ++
                           image_assets net (images page)).
Proof.
  split; [| split].
  - intros c Hz. unfold processCanvas.
    destruct Hz as [-> | ->]; cbn; [reflexivity |].
    now rewrite orb_true_r.
  - intros c e Hw Hh He. unfold processCanvas.
    apply N.eqb_neq in Hw, Hh. rewrite Hw, Hh, He. reflexivity.
  - intros net page before after c t Hcs Hc.
    assert (Hsplit : canvas_assets (canvases page) =
                     canvas_assets before ++ canvas_assets after).
    { rewrite Hcs. unfold canvas_assets. rewrite flat_map_app. cbn.
      now rewrite Hc. }
    split; [| split].
    + rewrite extractAssets_spec. cbn. rewrite Hsplit.
      now rewrite <- app_assoc.
    + rewrite extractAssets_spec. cbn. rewrite Hcs, flat_map_app. cbn.
      rewrite Hc. cbn. intros ev Hev.
      apply in_or_app. left. apply in_or_app. right.
      apply in_or_app. now left.
    + eexists. split; [apply capturePageData_spec |]. cbn.
      rewrite Hsplit. now rewrite <- app_assoc.
Qed.

Lemma processCanvas_skips_witness :
  processCanvas empty_canvas = ([], Return None) /\
  processCanvas tainted_canvas =
    ([ConsoleWarn Text.warn_canvas
        (Error (lit "The canvas has been tainted by cross-origin data"))],
     Return None) /\
  result (extractAssets sample_net
            {| location := sample_location; title := []; outerHTML := [];
               canvases := [sample_canvas; tainted_canvas; sample_canvas];
               images := [] |}) =
    Return (canvas_assets [sample_canvas] ++ canvas_assets [sample_canvas] ++
            image_assets sample_net []).
Proof.
  destruct processCanvas_skips_empty_and_tainted as [Hempty [Htaint Hsib]].
  split; [| split].
  - apply Hempty. left. reflexivity.
  - apply Htaint; [discriminate | discriminate | reflexivity].
  - refine (proj1 (Hsib sample_net _ [sample_canvas] [sample_canvas]
                    tainted_canvas _ _ _)); reflexivity.
Defined.

(** C6.  An image whose source is not inline-encoded and whose natural
    width or height is below 300 yields no asset; an asset is emitted only
    for an inline-encoded source or natural dimensions of at least 300 by
    300. *)
Theorem processImage_filters_small_images (net : Network) (img : Img) :
  (startsWith (lit "data:image/") (image_source img) = false ->
   (naturalWidth img < 300 \/ naturalHeight img < 300)%N ->
   result (processImage net img) = Return None) /\
  (forall a : Asset,
      result (processImage net img) = Return (Some a) ->
      startsWith (lit "data:image/") (image_source img) = true \/
      (300 <= naturalWidth img /\ 300 <= naturalHeight img)%N).
Proof.
  fold (isBase64 img).
  assert (Hlarge : isLargeEnough img = true <->
                   (300 <= naturalWidth img /\ 300 <= naturalHeight img)%N).
  { unfold isLargeEnough. rewrite andb_true_iff, !N.leb_le. tauto. }
  rewrite processImage_spec. split.
  - intros Hb Hsmall. rewrite Hb.
    destruct (isLargeEnough img) eqn:Hl.
    + apply proj1 in Hlarge. specialize (Hlarge eq_refl). lia.
    + now destruct (negb (loads img)).
  - intros a Ha.
    destruct (isBase64 img); [now left |].
    destruct (isLargeEnough img); [right; now apply Hlarge |].
    destruct (negb (loads img)); discriminate.
Qed.

Lemma processImage_filters_witness :
  result (processImage sample_net icon_image) = Return None /\
  (startsWith (lit "data:image/") (image_source sample_image) = true \/
   (300 <= naturalWidth sample_image /\ 300 <= naturalHeight sample_image)%N).
Proof.
  split.
  - apply (proj1 (processImage_filters_small_images sample_net icon_image)).
    + reflexivity.
    + left. reflexivity.
  - eapply (proj2 (processImage_filters_small_images sample_net sample_image)).
    reflexivity.
Defined.

(** C7.  For an image whose source is inline-encoded, the asset that is
    emitted carries the source string itself as [base64] and the natural
    dimensions, and [fetch] is never called; the asset is emitted whenever
    the image is loaded. *)
Theorem processImage_inline_roundtrip (net : Network) (img : Img) :
  startsWith (lit "data:image/") (image_source img) = true ->
  (forall a : Asset,
      result (processImage net img) = Return (Some a) ->
      a = {| type := image; base64 := Some (image_source img);
             src_url := None;
             width := naturalWidth img; height := naturalHeight img |}) /\
  (loads img = true ->
   result (processImage net img) =
     Return (Some {| type := image; base64 := Some (image_source img);
                     src_url := None;
                     width := naturalWidth img;
                     height := naturalHeight img |})) /\
  (forall method url, ~ In (FetchCall method url) (trace (processImage net img))).
Proof.
  fold (isBase64 img). intros Hb. split; [| split].
  - intros a. rewrite processImage_spec, Hb. cbn.
    destruct (negb (loads img)); congruence.
  - intros Hl. rewrite processImage_spec, Hb, Hl. reflexivity.
  - intros method url Hin.
    pose proof (processImage_inline_trace net img Hb) as Hall.
    rewrite forallb_forall in Hall. specialize (Hall _ Hin). discriminate.
Qed.

Lemma processImage_inline_witness :
  result (processImage sample_net inline_image) =
    Return (Some {| type := image; base64 := Some sample_png;
                    src_url := None; width := 1; height := 1 |}).
Proof.
  apply (proj1 (proj2 (processImage_inline_roundtrip sample_net inline_image
                         eq_refl))).
  reflexivity.
Defined.

Lemma imageUrlToBase64_fails (net : Network) (url : jsstring) :
  fetch_or_conversion_fails net url = true <->
  exists e, result (imageUrlToBase64 net url) = Throw e.
Proof.
  destruct (imageUrlToBase64_cases net url) as [[d [Hf ->]] | [e [Hf ->]]];
    rewrite Hf; cbn; split.
  - discriminate.
  - intros [e He]. discriminate.
  - eauto.
  - reflexivity.
Qed.

(** C8.  For a loaded image that is large enough and not inline-encoded,
    when the fetch of its source or the conversion fails, the asset emitted
    has [src_url] set to the source and no [base64]; nothing is thrown, the
    failure is only logged, and the capture returns a bundle that contains
    this asset. *)
Theorem processImage_url_fallback (net : Network) (img : Img) :
  startsWith (lit "data:image/") (image_source img) = false ->
  (300 <= naturalWidth img /\ 300 <= naturalHeight img)%N ->
  loads img = true ->
  fetch_or_conversion_fails net (image_source img) = true ->
  let degraded :=
    {| type := image; base64 := None; src_url := Some (image_source img);
       width := naturalWidth img; height := naturalHeight img |} in
  result (processImage net img) = Return (Some degraded) /\
  (exists e,
      In (ConsoleWarn Text.warn_fetch e) (trace (processImage net img))) /\
  (forall page : Page,
      In img (images page) ->
      exists b, result (capturePageData net page) = Return b /\
                In degraded (assets b)).
Proof.
  fold (isBase64 img). intros Hb [Hw Hh] Hl Hf degraded.
  assert (Hlarge : isLargeEnough img = true).
  { unfold isLargeEnough. apply andb_true_iff. now rewrite !N.leb_le. }
  assert (Hres : result (processImage net img) = Return (Some degraded)).
  { rewrite processImage_spec, Hb, Hl, Hlarge. cbn.
    apply imageUrlToBase64_fails in Hf. destruct Hf as [e ->]. reflexivity. }
  split; [exact Hres | split].
  - unfold processImage, load_promise. unfold loads in Hl.
    fold (isBase64 img) in Hb. rewrite Hb, Hlarge.
    destruct (imageUrlToBase64_cases net (image_source img))
      as [[d [Hf' _]] | [e [_ He]]]; [congruence |].
    rewrite He. exists e.
    destruct (complete img); cbn.
    + right. now left.
    + destruct (load_signal img); try discriminate. cbn. right. now left.
  - intros page Hin. eexists. split; [apply capturePageData_spec |]. cbn.
    apply in_or_app. right. unfold image_assets.
    apply in_flat_map. exists img. split; [exact Hin |].
    rewrite Hres. now left.
Qed.

Lemma processImage_url_fallback_witness :
  result (processImage sample_net blocked_image) =
    Return (Some {| type := image; base64 := None;
                    src_url := Some (lit "https://other.example/photo.jpg");
                    width := 1024; height := 768 |}).
Proof.
  refine (proj1 (processImage_url_fallback sample_net blocked_image _ _ _ _)).
  - reflexivity.
  - split; apply N.leb_le; reflexivity.
  - reflexivity.
  - reflexivity.
Defined.

(** C9.  The assets of a capture are the assets of the canvases, in
    document order, followed by the assets of the images, in document
    order.  A page with one 800 by 400 canvas and one 320 by 320 image whose
    source is not inline and can be fetched yields exactly two assets, a
    [canvas_chart] and then an [image]. *)
Theorem extractAssets_canvases_then_images (net : Network) (page : Page) :
  result (extractAssets net page) =
    Return (canvas_assets (canvases page) ++ image_assets net (images page)) /\
  Forall (fun a => type a = canvas_chart) (canvas_assets (canvases page)) /\
  Forall (fun a => type a = image) (image_assets net (images page)) /\
  (forall cs1 cs2, canvas_assets (cs1 ++ cs2) =
                   canvas_assets cs1 ++ canvas_assets cs2) /\
  (forall is1 is2, image_assets net (is1 ++ is2) =
                   image_assets net is1 ++ image_assets net is2) /\
  (forall (c : Canvas) (img : Img) (png b64 : jsstring),
      canvases page = [c] -> images page = [img] ->
      canvas_width c = 800%N -> canvas_height c = 400%N ->
      toDataURL c = Return png ->
      naturalWidth img = 320%N -> naturalHeight img = 320%N ->
      startsWith (lit "data:image/") (image_source img) = false ->
      loads img = true ->
      result (imageUrlToBase64 net (image_source img)) = Return b64 ->
      result (extractAssets net page) =
        Return [ {| type := canvas_chart; base64 := Some png;
                    src_url := None; width := 800; height := 400 |};
                 {| type := image; base64 := Some b64;
                    src_url := Some (image_source img);
                    width := 320; height := 320 |} ]).
Proof.
  split; [| split; [| split; [| split; [| split]]]].
  - now rewrite extractAssets_spec.
  - apply canvas_assets_type.
  - apply image_assets_type.
  - intros cs1 cs2. unfold canvas_assets. apply flat_map_app.
  - intros is1 is2. unfold image_assets. apply flat_map_app.
  - intros c img png b64 Hcs His Hw Hh Hpng Hnw Hnh Hb Hl Hfetch.
    rewrite extractAssets_spec, Hcs, His. cbn.
    rewrite processImage_spec. fold (isBase64 img) in Hb.
    rewrite Hl, Hb, Hfetch. unfold isLargeEnough. rewrite Hnw, Hnh. cbn.
    unfold processCanvas. rewrite Hw, Hh, Hpng. reflexivity.
Qed.

Lemma extractAssets_scenario_witness :
  result (extractAssets sample_net sample_page) =
    Return [ {| type := canvas_chart; base64 := Some sample_png;
                src_url := None; width := 800; height := 400 |};
             {| type := image; base64 := Some sample_png;
                src_url := Some (lit "https://cdn.example/chart.png");
                width := 320; height := 320 |} ].
Proof.
  refine (proj2 (proj2 (proj2 (proj2 (proj2
            (extractAssets_canvases_then_images sample_net sample_page)))))
            sample_canvas sample_image sample_png sample_png
            _ _ _ _ _ _ _ _ _ _); reflexivity.
Defined.

(** ** The relay's status probe *)

(** C1 as the specification states it does not hold: when the probe's
    [fetch] rejects because the endpoint cannot be reached, the rejection is
    caught on the promise and the status is [unknown], not [failed]. *)
Lemma checkApiStatus_unreachable_is_unknown :
  result (checkApiStatus unreachable default_endpoint) = Return unknown /\
  result (checkApiStatus unreachable default_endpoint) <> Return failed.
Proof. split; [reflexivity | discriminate]. Qed.

(** C1, amended.  [checkApiStatus] never throws.  It returns [connected]
    when the probe is answered with a success status or with 405,
    [unknown] when it is answered with another status or when the promise
    of [fetch] rejects (the endpoint cannot be reached), and [failed] only
    when the call of [fetch] itself throws. *)
Theorem checkApiStatus_cases (net : Network) (endpoint : jsstring) :
  result (checkApiStatus net endpoint) =
    Return
      match net (lit "OPTIONS") endpoint with
      | FetchReturns (Fulfilled r) =>
          if ok r || (status r =? 405)%N then connected else unknown
      | FetchReturns (Rejected _) => unknown
      | FetchThrows _ => failed
      end.
Proof.
  unfold checkApiStatus, fetch.
  destruct (net (lit "OPTIONS") endpoint) as [e | [r | e]]; cbn;
    try reflexivity.
  destruct (ok r || (status r =? 405)%N); reflexivity.
Qed.

(** ** Strings and numbers *)

Lemma startsWith_app (p s post : jsstring) :
  startsWith p s = true -> startsWith p (s ++ post) = true.
Proof.
  revert s. induction p as [| a p IH]; intros s H; [reflexivity |].
  destruct s as [| b s]; [discriminate |]. cbn in *.
  apply andb_true_iff in H. destruct H as [-> H]. cbn. now apply IH.
Qed.

Lemma includes_app_l (p s post : jsstring) :
  includes p s = true -> includes p (s ++ post) = true.
Proof.
  induction s as [| b s IH]; cbn; intros H.
  - rewrite orb_false_r in H. destruct p; [| discriminate].
    destruct post; reflexivity.
  - apply orb_true_iff in H. destruct H as [H | H].
    + apply (startsWith_app _ _ post) in H. cbn in H. now rewrite H.
    + rewrite (IH H). apply orb_true_r.
Qed.

Lemma includes_app_r (p pre s : jsstring) :
  includes p s = true -> includes p (pre ++ s) = true.
Proof.
  intros H. induction pre as [| b pre IH]; [exact H |].
  cbn. rewrite IH. apply orb_true_r.
Qed.

Lemma includes_self (s post : jsstring) : includes s (s ++ post) = true.
Proof.
  apply includes_app_l. destruct s as [| a s]; [reflexivity |].
  cbn. unfold cu_eqb. rewrite N.eqb_refl. cbn.
  replace (startsWith s s) with true; [reflexivity |].
  clear a. induction s as [| a s IH]; [reflexivity |].
  cbn. unfold cu_eqb. now rewrite N.eqb_refl.
Qed.

Lemma digit_back (n : N) : (10 * (n / 10) + (48 + n mod 10 - 48))%N = n.
Proof.
  rewrite (N.add_comm 48), N.add_sub. symmetry. apply N.div_mod. discriminate.
Qed.

Lemma digits_value (fuel : nat) :
  forall (n : N) (acc : jsstring),
    (n < 2 ^ N.of_nat fuel)%N ->
    fold_left (fun v c => (10 * v + (c - 48))%N) (digits fuel n acc) 0%N =
    fold_left (fun v c => (10 * v + (c - 48))%N) acc n.
Proof.
  induction fuel as [| fuel IH]; intros n acc Hn.
  - cbn in Hn. assert (n = 0%N) by lia. now subst.
  - cbn [digits].
    destruct (N.eqb_spec (n / 10) 0) as [Hq | Hq].
    + cbn [fold_left]. f_equal. rewrite <- Hq. apply digit_back.
    + rewrite IH.
      * cbn [fold_left]. f_equal. apply digit_back.
      * rewrite Nnat.Nat2N.inj_succ, N.pow_succ_r' in Hn.
        assert (n / 10 <= n / 2)%N.
        { apply N.div_le_compat_l. lia. }
        assert (n / 2 < 2 ^ N.of_nat fuel)%N.
        { apply N.Div0.div_lt_upper_bound. lia. }
        lia.
Qed.

(** The rendering of a number reads back as that number. *)
Lemma to_number_of_number (n : N) : to_number (of_number n) = n.
Proof.
  unfold to_number, of_number. rewrite digits_value; [reflexivity |].
  rewrite Nnat.Nat2N.inj_succ, Nnat.N2Nat.id.
  destruct n as [| p]; [reflexivity |].
  apply N.log2_spec. lia.
Qed.

Lemma digits_are_digits (fuel : nat) :
  forall (n : N) (acc : jsstring),
    forallb is_digit acc = true ->
    forallb is_digit (digits fuel n acc) = true.
Proof.
  induction fuel as [| fuel IH]; intros n acc Hacc; [exact Hacc |].
  cbn [digits].
  assert (Hd : forallb is_digit ((48 + n mod 10)%N :: acc) = true).
  { pose proof (N.mod_lt n 10 ltac:(lia)) as Hm. revert Hm.
    generalize (n mod 10)%N. intros d Hd.
    cbn [forallb]. rewrite Hacc, andb_true_r. unfold is_digit.
    apply andb_true_iff. split; apply N.leb_le; lia. }
  destruct (n / 10 =? 0)%N; [exact Hd | now apply IH].
Qed.

Lemma digits_length (fuel : nat) :
  forall (n : N) (acc : jsstring),
    List.length acc <= List.length (digits fuel n acc).
Proof.
  induction fuel as [| fuel IH]; intros n acc; [cbn; lia |].
  cbn [digits]. destruct (n / 10 =? 0)%N; [cbn; lia |].
  etransitivity; [| apply IH]. cbn. lia.
Qed.

Lemma of_number_two_digits (n : N) :
  (10 <= n)%N ->
  exists a b rest,
    of_number n = a :: b :: rest /\ is_digit a = true /\ is_digit b = true.
Proof.
  intros Hn. unfold of_number.
  assert (Hlog : (3 <= N.log2 n)%N).
  { change 3%N with (N.log2 8). apply N.log2_le_mono. lia. }
  destruct (N.to_nat (N.log2 n)) as [| fuel] eqn:Hfuel; [lia |].
  pose proof (digits_are_digits (S (S fuel)) n [] eq_refl) as Hall.
  assert (Hlen : 2 <= List.length (digits (S (S fuel)) n [])).
  { cbn [digits].
    destruct (N.eqb_spec (n / 10) 0) as [Hq | Hq].
    - pose proof (N.div_mod n 10 ltac:(lia)).
      pose proof (N.mod_lt n 10 ltac:(lia)). lia.
    - destruct (n / 10 / 10 =? 0)%N; [cbn; lia |].
      etransitivity; [| apply digits_length]. cbn. lia. }
  destruct (digits (S (S fuel)) n []) as [| a [| b rest]]; cbn in Hlen;
    try lia.
  exists a, b, rest. cbn in Hall.
  apply andb_true_iff in Hall. destruct Hall as [Ha Hall].
  apply andb_true_iff in Hall. destruct Hall as [Hb _]. auto.
Qed.

Lemma includes_digit_pair (a b : N) (rest s : jsstring) :
  is_digit a = true -> is_digit b = true ->
  includes (a :: b :: rest) s = true -> has_digit_pair s = true.
Proof.
  intros Ha Hb. induction s as [| x s IH]; [discriminate |].
  cbn [includes]. intros H. apply orb_true_iff in H. destruct H as [H | H].
  - cbn in H. destruct s as [| y s]; [now rewrite andb_false_r in H |].
    unfold cu_eqb in H.
    apply andb_true_iff in H. destruct H as [Hx H].
    apply andb_true_iff in H. destruct H as [Hy _].
    apply N.eqb_eq in Hx, Hy. subst x y.
    cbn. now rewrite Ha, Hb.
  - specialize (IH H). destruct s as [| y s]; [discriminate |].
    change (has_digit_pair (x :: y :: s))
      with ((is_digit x && is_digit y) || has_digit_pair (y :: s)).
    rewrite IH. apply orb_true_r.
Qed.

(** The message for network errors shows no number of two or more digits. *)
Lemma network_message_hides_status (st : N) :
  (10 <= st)%N -> includes (of_number st) Text.network_message = false.
Proof.
  intros Hst. destruct (of_number_two_digits st Hst) as [a [b [rest [-> [Ha Hb]]]]].
  destruct (includes (a :: b :: rest) Text.network_message) eqn:Hinc;
    [| reflexivity].
  apply (@includes_digit_pair a b rest _ Ha Hb) in Hinc. discriminate.
Qed.

(** ** The relay's upload *)

Lemma sendToApi_catch_network (e : Thrown) (m : jsstring) :
  message e = Some m ->
  includes (lit "Failed to fetch") m = true \/
  includes (lit "NetworkError") m = true ->
  sendToApi_catch e = ([], Throw (Error Text.network_message)).
Proof.
  intros Hm. unfold sendToApi_catch, message_includes. rewrite Hm.
  generalize (lit "Failed to fetch") (lit "NetworkError"). intros p q Hinc.
  destruct (includes p m) eqn:Hf; [reflexivity |].
  destruct Hinc as [Hinc | Hinc]; [discriminate |].
  cbn. rewrite Hinc. reflexivity.
Qed.

Lemma sendToApi_catch_other (e : Thrown) (m : jsstring) :
  message e = Some m ->
  includes (lit "Failed to fetch") m = false ->
  includes (lit "NetworkError") m = false ->
  sendToApi_catch e = ([], Throw e).
Proof.
  intros Hm. unfold sendToApi_catch, message_includes. rewrite Hm.
  generalize (lit "Failed to fetch") (lit "NetworkError"). intros p q Hf Hn.
  cbn. rewrite Hf. cbn. rewrite Hn. reflexivity.
Qed.

(** What the [try] block throws for a response without a success status. *)
Lemma sendToApi_try_status_error (net : Network) (endpoint : jsstring)
  (payload : JsValue) (r : Response) :
  net (lit "POST") endpoint = FetchReturns (Fulfilled r) ->
  ok r = false ->
  sendToApi_try net endpoint payload =
    ([FetchCall (lit "POST") endpoint],
     Throw (Error (Text.api_error_prefix ++ of_number (status r)
                     ++ lit "): " ++ error_body r))).
Proof.
  intros Hnet Hok. unfold sendToApi_try, fetch, error_body.
  rewrite Hnet. cbn. rewrite Hok. cbn.
  destruct (text r); reflexivity.
Qed.

(** Where the relay reports a status failure as such, the message carries
    the status code and the body text, cut to 100 code units. *)
Lemma sendToApi_reports_status (net : Network) (endpoint : jsstring)
  (payload : JsValue) (r : Response) :
  net (lit "POST") endpoint = FetchReturns (Fulfilled r) ->
  ok r = false ->
  let m := Text.api_error_prefix ++ of_number (status r)
             ++ lit "): " ++ error_body r in
  includes (lit "Failed to fetch") m = false ->
  includes (lit "NetworkError") m = false ->
  result (sendToApi net endpoint payload) = Throw (Error m) /\
  includes (of_number (status r)) m = true /\
  includes (error_body r) m = true /\
  List.length (error_body r) <= 100.
Proof.
  intros Hnet Hok m Hf Hn. unfold sendToApi.
  rewrite (sendToApi_try_status_error net endpoint payload r Hnet Hok). fold m.
  unfold try_catch.
  rewrite (sendToApi_catch_other (Error m) m eq_refl Hf Hn).
  split; [reflexivity | split; [| split]].
  - unfold m. apply includes_app_r, includes_self.
  - unfold m. rewrite !app_assoc. apply includes_app_r.
    rewrite <- (app_nil_r (error_body r)) at 2. apply includes_self.
  - unfold error_body, substring0. apply firstn_le_length.
Qed.

(** C2 fails on the code for a body that names a network error: an HTTP 500
    whose body is the text [Failed to fetch] surfaces the message for
    network errors, which shows neither the status code nor the body. *)
Theorem sendToApi_status_error_masked :
  let r := sample_response 500 (lit "Failed to fetch") in
  ok r = false /\
  result (sendToApi (answering r) default_endpoint JNull) =
    Throw (Error Text.network_message) /\
  includes (of_number 500) Text.network_message = false /\
  includes (lit "Failed to fetch") Text.network_message = false.
Proof. cbv zeta. repeat split; vm_compute; reflexivity. Qed.

(** The scenario of the specification: an HTTP 500 with body
    [server error]. *)
Lemma sendToApi_server_error :
  let r := sample_response 500 (lit "server error") in
  exists m,
    result (sendToApi (answering r) default_endpoint JNull) = Throw (Error m) /\
    includes (lit "500") m = true /\
    includes (lit "server error") m = true.
Proof. eexists. repeat split; vm_compute; reflexivity. Qed.

(** C10.  Whatever the [try] block of [sendToApi] throws, if its message
    contains [Failed to fetch] or [NetworkError], the error that surfaces is
    the fixed message for network errors.  This includes the failure for a
    response without a success status whose body text, cut to 100 code
    units, contains one of the two: the surfaced message then does not show
    the status code. *)
Theorem sendToApi_normalizes_by_message (net : Network) (endpoint : jsstring)
  (payload : JsValue) :
  (forall (e : Thrown) (m : jsstring),
      result (sendToApi_try net endpoint payload) = Throw e ->
      message e = Some m ->
      includes (lit "Failed to fetch") m = true \/
      includes (lit "NetworkError") m = true ->
      result (sendToApi net endpoint payload) =
        Throw (Error Text.network_message)) /\
  (forall r : Response,
      net (lit "POST") endpoint = FetchReturns (Fulfilled r) ->
      ok r = false ->
      includes (lit "Failed to fetch") (error_body r) = true \/
      includes (lit "NetworkError") (error_body r) = true ->
      result (sendToApi net endpoint payload) =
        Throw (Error Text.network_message) /\
      ((10 <= status r)%N ->
       includes (of_number (status r)) Text.network_message = false)).
Proof.
  assert (Hgen : forall (e : Thrown) (m : jsstring),
             result (sendToApi_try net endpoint payload) = Throw e ->
             message e = Some m ->
             includes (lit "Failed to fetch") m = true \/
             includes (lit "NetworkError") m = true ->
             result (sendToApi net endpoint payload) =
               Throw (Error Text.network_message)).
  { intros e m Hthrow Hm Hinc. unfold sendToApi, try_catch.
    destruct (sendToApi_try net endpoint payload) as [t o].
    cbn in Hthrow. subst o.
    rewrite (sendToApi_catch_network e m Hm Hinc). reflexivity. }
  split; [exact Hgen |].
  intros r Hnet Hok Hinc. split; [| apply network_message_hides_status].
  eapply Hgen.
  - rewrite (sendToApi_try_status_error net endpoint payload r Hnet Hok). reflexivity.
  - reflexivity.
  - rewrite !app_assoc.
    destruct Hinc as [H | H]; [left | right]; now apply includes_app_r.
Qed.

Lemma sendToApi_normalizes_witness :
  result (sendToApi unreachable default_endpoint JNull) =
    Throw (Error Text.network_message) /\
  result (sendToApi (answering (sample_response 503 (lit "NetworkError upstream")))
            default_endpoint JNull) =
    Throw (Error Text.network_message) /\
  includes (of_number 503) Text.network_message = false.
Proof.
  split.
  - refine (proj1 (sendToApi_normalizes_by_message unreachable
                     default_endpoint JNull)
                  (Error (lit "Failed to fetch")) (lit "Failed to fetch")
                  _ _ _).
    + reflexivity.
    + reflexivity.
    + left. reflexivity.
  - pose proof (proj2 (sendToApi_normalizes_by_message
                  (answering (sample_response 503 (lit "NetworkError upstream")))
                  default_endpoint JNull)
                  (sample_response 503 (lit "NetworkError upstream"))
                  eq_refl eq_refl (or_intror eq_refl)) as [H1 H2].
    split; [exact H1 |]. apply H2. apply N.leb_le. reflexivity.
Defined.

(** ** Regular expressions *)

Lemma chr_matches_gt (ch : N) : chr_matches ch 62 = N.eqb ch 62.
Proof.
  unfold chr_matches, canonicalize.
  change ((97 <=? 62)%N && (62 <=? 122)%N) with false. cbv iota.
  destruct ((97 <=? ch)%N && (ch <=? 122)%N) eqn:Hrange; [| reflexivity].
  apply andb_true_iff in Hrange. destruct Hrange as [Hlo Hhi].
  apply N.leb_le in Hlo, Hhi.
  destruct (N.eqb_spec (ch - 32) 62), (N.eqb_spec ch 62); try reflexivity; lia.
Qed.

Lemma gt_matches_chr (ch : N) : chr_matches 62 ch = N.eqb ch 62.
Proof.
  unfold chr_matches. rewrite N.eqb_sym. apply chr_matches_gt.
Qed.

(** The tail [[^>]*>] matches up to the first [>]. *)
Lemma match_here_tail (s : jsstring) :
  match_here [StarNot 62; Chr 62] s = option_map S (index_of 62 s).
Proof.
  induction s as [| ch s IH]; [reflexivity |].
  cbn [match_here index_of] in *. rewrite gt_matches_chr.
  destruct (N.eqb ch 62); cbn [negb]; [reflexivity |].
  rewrite IH. destruct (index_of 62 s); reflexivity.
Qed.

Lemma match_here_literal (w : jsstring) (q : regex) :
  forall s,
    match_here (map Chr w ++ q) s =
      if starts_ci w s then
        option_map (Nat.add (List.length w))
                   (match_here q (skipn (List.length w) s))
      else None.
Proof.
  induction w as [| c w IH]; intros s.
  - cbn. destruct (match_here q s); reflexivity.
  - destruct s as [| ch s]; [reflexivity |].
    cbn [map app match_here starts_ci List.length skipn].
    destruct (chr_matches c ch); [| reflexivity]. cbn [andb].
    rewrite IH. destruct (starts_ci w s); [| reflexivity].
    destruct (match_here q (skipn (List.length w) s)); reflexivity.
Qed.

(** A literal without [>] does not move the first [>]. *)
Lemma index_of_after_literal (w : jsstring) :
  forallb (fun c => negb (chr_matches c 62)) w = true ->
  forall s,
    starts_ci w s = true ->
    index_of 62 s =
      option_map (Nat.add (List.length w))
                 (index_of 62 (skipn (List.length w) s)).
Proof.
  induction w as [| c w IH]; intros Hw s Hs.
  - cbn. destruct (index_of 62 s); reflexivity.
  - destruct s as [| ch s]; [discriminate |].
    cbn in Hw, Hs. apply andb_true_iff in Hw, Hs.
    destruct Hw as [Hc Hw], Hs as [Hch Hs].
    cbn [index_of List.length skipn].
    destruct (N.eqb_spec ch 62) as [-> | Hne].
    + rewrite Hch in Hc. discriminate.
    + rewrite (IH Hw s Hs).
      destruct (index_of 62 (skipn (List.length w) s)); reflexivity.
Qed.

(** What [/<name[^>]*>/i] matches at the start of [s]: if [s] opens the
    tag, everything up to the first [>]. *)
Lemma match_here_tag (name : string) (s : jsstring) :
  gt_free (tag_open name) = true ->
  match_here (tag name) s =
    if starts_ci (tag_open name) s then option_map S (index_of 62 s)
    else None.
Proof.
  intros Hfree.
  change (tag name)
    with (map Chr (tag_open name) ++ [StarNot 62; Chr 62]).
  rewrite match_here_literal.
  destruct (starts_ci (tag_open name) s) eqn:Hs; [| reflexivity].
  rewrite match_here_tail, (index_of_after_literal _ Hfree s Hs).
  destruct (index_of 62 (skipn (List.length (tag_open name)) s)); cbn;
    [| reflexivity].
  f_equal. lia.
Qed.

Lemma starts_ci_app (w t x y : jsstring) :
  gt_free w = true -> In 62%N t ->
  starts_ci w (t ++ x) = starts_ci w (t ++ y).
Proof.
  revert t. induction w as [| c w IH]; intros t Hw Hin; [reflexivity |].
  destruct t as [| ch t]; [contradiction |].
  cbn in Hw. apply andb_true_iff in Hw. destruct Hw as [Hc Hw].
  cbn [app starts_ci]. destruct Hin as [-> | Hin].
  - apply negb_true_iff in Hc. now rewrite Hc.
  - now rewrite (IH t Hw Hin).
Qed.

Lemma index_of_app (c : N) (t x : jsstring) :
  In c t -> index_of c (t ++ x) = index_of c t.
Proof.
  induction t as [| ch t IH]; intros Hin; [contradiction |].
  cbn [app index_of]. destruct (N.eqb_spec ch c) as [| Hne]; [reflexivity |].
  destruct Hin as [Heq | Hin]; [contradiction |]. now rewrite IH.
Qed.

(** A tag match that starts before a [>] does not look behind it. *)
Lemma match_here_tag_app (name : string) (t x y : jsstring) :
  gt_free (tag_open name) = true -> In 62%N t ->
  match_here (tag name) (t ++ x) = match_here (tag name) (t ++ y).
Proof.
  intros Hfree Hin. rewrite !match_here_tag by exact Hfree.
  rewrite (starts_ci_app _ t x y Hfree Hin).
  now rewrite !index_of_app by exact Hin.
Qed.

Lemma index_of_split (c : N) (s : jsstring) (j : nat) :
  index_of c s = Some j ->
  firstn (S j) s = firstn j s ++ [c] /\ j < List.length s /\
  ~ In c (firstn j s).
Proof.
  revert j. induction s as [| ch s IH]; intros j H; [discriminate |].
  cbn [index_of] in H. destruct (N.eqb_spec ch c) as [-> | Hne].
  - injection H as <-. cbn. repeat split; [lia | tauto].
  - destruct (index_of c s) as [k |]; [| discriminate].
    injection H as <-. destruct (IH k eq_refl) as [Hf [Hl Hn]].
    cbn [firstn List.length app]. rewrite <- Hf.
    repeat split; [lia |]. intros [Heq | Hin]; [congruence | tauto].
Qed.

Lemma index_of_first (c : N) (u x : jsstring) :
  ~ In c u -> index_of c (u ++ c :: x) = Some (List.length u).
Proof.
  induction u as [| ch u IH]; intros Hn; cbn.
  - now rewrite N.eqb_refl.
  - destruct (N.eqb_spec ch c) as [-> | Hne]; [cbn in Hn; tauto |].
    rewrite IH; [reflexivity |]. cbn in Hn. tauto.
Qed.

Lemma exec_none (p : regex) (s : jsstring) :
  exec p s = None ->
  forall t1 t2, s = t1 ++ t2 -> match_here p t2 = None.
Proof.
  intros H t1. revert s H. induction t1 as [| a t1 IH]; intros s H t2 ->.
  - cbn in H. destruct t2; cbn in H;
      destruct (match_here p _); congruence.
  - cbn [app exec] in H.
    destruct (match_here p (a :: t1 ++ t2)); [discriminate |].
    destruct (exec p (t1 ++ t2)) as [[i n] |] eqn:He; [discriminate |].
    now apply (IH _ He).
Qed.

Lemma exec_some (p : regex) (s : jsstring) (i n : nat) :
  exec p s = Some (i, n) ->
  match_here p (skipn i s) = Some n /\ i <= List.length s.
Proof.
  revert i. induction s as [| a s IH]; intros i H.
  - cbn in H. destruct (match_here p []) eqn:Hm; [| discriminate].
    injection H as <- <-. cbn. split; [exact Hm | lia].
  - cbn [exec] in H. destruct (match_here p (a :: s)) eqn:Hm.
    + injection H as <- <-. cbn. split; [exact Hm | lia].
    + destruct (exec p s) as [[j m] |] eqn:He; [| discriminate].
      injection H as <- <-. destruct (IH j eq_refl). cbn. split; [easy | lia].
Qed.

Lemma firstn_plus {A} (i n : nat) (l : list A) :
  firstn (i + n) l = firstn i l ++ firstn n (skipn i l).
Proof.
  revert l. induction i as [| i IH]; intros l; [reflexivity |].
  destruct l as [| a l]; cbn; [now rewrite firstn_nil | now rewrite IH].
Qed.

(** A scan that finds no match at the positions of [a] counts only the
    matches behind it. *)
Lemma count_from_app_none (p : regex) (x : jsstring) :
  forall a,
    (forall t1 t2, a = t1 ++ t2 -> t2 <> [] -> match_here p (t2 ++ x) = None) ->
    count_from p (a ++ x) 0 = count_from p x 0.
Proof.
  induction a as [| c a IH]; intros H; [reflexivity |].
  cbn [app count_from].
  pose proof (H [] (c :: a) eq_refl ltac:(discriminate)) as H0.
  cbn [app] in H0. rewrite H0.
  apply IH. intros t1 t2 -> Hne. apply (H (c :: t1) t2 eq_refl Hne).
Qed.

Lemma count_from_skip (p : regex) (u x : jsstring) :
  count_from p (u ++ x) (List.length u) = count_from p x 0.
Proof.
  induction u as [| c u IH]; [reflexivity | exact IH].
Qed.

Lemma count_from_none (p : regex) :
  forall s,
    (forall t1 t2, s = t1 ++ t2 -> match_here p t2 = None) ->
    count_from p s 0 = 0.
Proof.
  induction s as [| c s IH]; intros H; [reflexivity |].
  cbn [count_from]. rewrite (H [] (c :: s) eq_refl).
  apply IH. intros t1 t2 ->. apply (H (c :: t1) t2 eq_refl).
Qed.

Lemma exec_second (p : regex) (c : N) (s : jsstring) (m : nat) :
  match_here p (c :: s) = None -> match_here p s = Some m ->
  exec p (c :: s) = Some (1, m).
Proof.
  intros Hc Hs. cbn [exec]. rewrite Hc.
  destruct s; cbn [exec]; now rewrite Hs.
Qed.

Lemma exec_app_none (p : regex) (x : jsstring) (i n : nat) :
  forall a,
    (forall t1 t2, a = t1 ++ t2 -> t2 <> [] -> match_here p (t2 ++ x) = None) ->
    exec p x = Some (i, n) ->
    exec p (a ++ x) = Some (List.length a + i, n).
Proof.
  induction a as [| c a IH]; intros H Hx; [exact Hx |].
  cbn [app exec].
  pose proof (H [] (c :: a) eq_refl ltac:(discriminate)) as H0.
  cbn [app] in H0. rewrite H0.
  rewrite IH; [reflexivity | | exact Hx].
  intros t1 t2 -> Hne. apply (H (c :: t1) t2 eq_refl Hne).
Qed.

(** ** Snapshot construction *)

Lemma base_directive_shape (loc : Location) :
  base_directive loc =
    10%N :: ([60; 98; 97; 115; 101; 32; 104; 114; 101; 102; 61; 34]%N
             ++ baseHref loc ++ [34%N]) ++ 62%N :: [].
Proof.
  unfold base_directive. cbn. now rewrite <- !app_assoc.
Qed.

(** The directive itself is matched by the pattern for base directives, from
    its second character (the first is a line feed) to its end. *)
Lemma match_here_base_directive (loc : Location) (x : jsstring) :
  ~ In 62%N (baseHref loc) ->
  match_here baseTagRegex (tl (base_directive loc) ++ x) =
    Some (List.length (base_directive loc) - 1).
Proof.
  intros Hfree. rewrite base_directive_shape. cbn [tl List.length].
  unfold baseTagRegex. rewrite match_here_tag by reflexivity.
  rewrite <- app_assoc. cbn [app].
  change (starts_ci (tag_open "base")
            (60 :: 98 :: 97 :: 115 :: 101 :: 32 :: 104 :: 114 :: 101 :: 102
               :: 61 :: 34 :: (baseHref loc ++ [34]) ++ 62 :: x)%N)
    with true. cbv iota.
  change (60 :: 98 :: 97 :: 115 :: 101 :: 32 :: 104 :: 114 :: 101 :: 102
            :: 61 :: 34 :: (baseHref loc ++ [34]) ++ 62 :: x)%N
    with (([60; 98; 97; 115; 101; 32; 104; 114; 101; 102; 61; 34]
             ++ baseHref loc ++ [34]) ++ 62 :: x)%N.
  rewrite index_of_first.
  - cbn [option_map app List.length]. rewrite !length_app.
    cbn [List.length]. f_equal. lia.
  - rewrite !in_app_iff. intros [H | [H | H]]; [| tauto |].
    + cbn in H. repeat (destruct H as [H | H]; [discriminate |]). exact H.
    + cbn in H. destruct H as [H | H]; [discriminate | exact H].
Qed.

Lemma index_of_in (c : N) (s : jsstring) :
  In c s -> exists j, index_of c s = Some j.
Proof.
  induction s as [| ch s IH]; intros Hin; [contradiction |].
  cbn [index_of]. destruct (N.eqb_spec ch c) as [| Hne]; [eauto |].
  destruct Hin as [Heq | Hin]; [contradiction |].
  destruct (IH Hin) as [j ->]. cbn. eauto.
Qed.

(** Whatever the location, the pattern matches where the directive starts. *)
Lemma match_here_base_directive_some (loc : Location) (x : jsstring) :
  exists m, match_here baseTagRegex (tl (base_directive loc) ++ x) = Some m.
Proof.
  rewrite base_directive_shape. cbn [tl].
  unfold baseTagRegex. rewrite match_here_tag by reflexivity.
  rewrite <- app_assoc. cbn [app].
  change (starts_ci (tag_open "base")
            (60 :: 98 :: 97 :: 115 :: 101 :: 32 :: 104 :: 114 :: 101 :: 102
               :: 61 :: 34 :: (baseHref loc ++ [34]) ++ 62 :: x)%N)
    with true. cbv iota.
  destruct (index_of_in 62
              (60 :: 98 :: 97 :: 115 :: 101 :: 32 :: 104 :: 114 :: 101 :: 102
                 :: 61 :: 34 :: (baseHref loc ++ [34]) ++ 62 :: x)%N)
    as [j ->]; [| cbn; eauto].
  do 12 right. apply in_or_app. right. now left.
Qed.

Lemma suffix_has_last {A} (a0 : list A) (c : A) (t1 t2 : list A) :
  a0 ++ [c] = t1 ++ t2 -> t2 <> [] -> In c t2.
Proof.
  intros Heq Hne. destruct (exists_last Hne) as [t2' [d ->]].
  rewrite app_assoc in Heq. apply app_inj_tail in Heq.
  destruct Heq as [_ ->]. apply in_or_app. right. now left.
Qed.

(** C4.  When the document already contains a base directive, the snapshot
    is the document itself: the directives it contains, their number and
    their positions are those of the document. *)
Theorem generateHtmlSnapshot_keeps_base (loc : Location) (html : jsstring) :
  test baseTagRegex html = true ->
  generateHtmlSnapshot loc html = html /\
  count baseTagRegex (generateHtmlSnapshot loc html) =
    count baseTagRegex html /\
  exec baseTagRegex (generateHtmlSnapshot loc html) = exec baseTagRegex html.
Proof.
  intros Hbase.
  assert (Hid : generateHtmlSnapshot loc html = html).
  { unfold generateHtmlSnapshot. now rewrite Hbase. }
  now rewrite Hid.
Qed.

Lemma generateHtmlSnapshot_keeps_base_witness :
  generateHtmlSnapshot sample_location
    (lit "<html><head><BASE target=_blank></head><body></body></html>") =
  lit "<html><head><BASE target=_blank></head><body></body></html>".
Proof.
  apply (generateHtmlSnapshot_keeps_base sample_location
           (lit "<html><head><BASE target=_blank></head><body></body></html>")).
  reflexivity.
Defined.



(** The snapshot of the sample page, as a whole. *)
Example generateHtmlSnapshot_sample :
  generateHtmlSnapshot sample_location (outerHTML sample_page) =
    lit "<html><head>" ++ [10%N] ++ lit "<base href=" ++ [34%N]
      ++ lit "https://a.example/reports/q3" ++ [34%N]
      ++ lit "><title>Q3</title></head><body></body></html>".
Proof. reflexivity. Qed.

(** Without a head-opening marker a head element is made up behind the
    document-root marker; without either the document is left as it is. *)
Example generateHtmlSnapshot_headless :
  generateHtmlSnapshot sample_location (lit "<HTML lang=en><body></body></HTML>") =
    lit "<HTML lang=en>" ++ [10%N] ++ lit "<head><base href=" ++ [34%N]
      ++ lit "https://a.example/reports/q3" ++ [34%N]
      ++ lit "></head><body></body></HTML>" /\
  generateHtmlSnapshot sample_location (lit "<p>bare</p>") = lit "<p>bare</p>".
Proof. split; reflexivity. Qed.

(** The status probe on the sample networks. *)
Example checkApiStatus_samples :
  result (checkApiStatus (answering (sample_response 405 [])) default_endpoint)
    = Return connected /\
  result (checkApiStatus (answering (sample_response 204 [])) default_endpoint)
    = Return connected /\
  result (checkApiStatus (answering (sample_response 500 [])) default_endpoint)
    = Return unknown /\
  result (checkApiStatus unreachable default_endpoint) = Return unknown /\
  result (checkApiStatus (throwing (Error (lit "fetch is not defined")))
            default_endpoint) = Return failed.
Proof. repeat split; reflexivity. Qed.

(** * Further properties of the code *)

(** ** Snapshot construction: every branch *)

Lemma test_found (p : regex) (t1 t2 : jsstring) (m : nat) :
  match_here p t2 = Some m -> test p (t1 ++ t2) = true.
Proof.
  intros Hm. unfold test. induction t1 as [| a t1 IH]; cbn [app].
  - destruct t2; cbn [exec]; now rewrite Hm.
  - cbn [exec]. destruct (match_here p (a :: t1 ++ t2)); [reflexivity |].
    destruct (exec p (t1 ++ t2)) as [[i n] |]; [reflexivity | discriminate].
Qed.

Lemma synthetic_head_shape (loc : Location) :
  synthetic_head loc =
    (10%N :: lit "<head>") ++ tl (base_directive loc) ++ lit "</head>".
Proof.
  unfold synthetic_head, base_directive. cbn. now rewrite <- !app_assoc.
Qed.

(** The four ways [generateHtmlSnapshot] can go. *)
Lemma generateHtmlSnapshot_branches (loc : Location) (html : jsstring) :
  (test baseTagRegex html = true /\ generateHtmlSnapshot loc html = html) \/
  (test baseTagRegex html = false /\
   exists i n, exec headTagRegex html = Some (i, n) /\
     generateHtmlSnapshot loc html =
       firstn (i + n) html ++ base_directive loc ++ skipn (i + n) html) \/
  (test baseTagRegex html = false /\ test headTagRegex html = false /\
   exists i n, exec htmlTagRegex html = Some (i, n) /\
     generateHtmlSnapshot loc html =
       firstn (i + n) html ++ synthetic_head loc ++ skipn (i + n) html) \/
  (test baseTagRegex html = false /\ test headTagRegex html = false /\
   test htmlTagRegex html = false /\ generateHtmlSnapshot loc html = html).
Proof.
  unfold generateHtmlSnapshot, replace, test.
  destruct (exec baseTagRegex html) as [[i0 n0] |]; cbn [negb]; [now left |].
  right.
  destruct (exec headTagRegex html) as [[i n] |].
  - left. split; [reflexivity |]. exists i, n. split; [reflexivity |].
    now rewrite firstn_plus, <- !app_assoc.
  - right. destruct (exec htmlTagRegex html) as [[i n] |].
    + left. repeat split. exists i, n. split; [reflexivity |].
      now rewrite firstn_plus, <- !app_assoc.
    + right. repeat split.
Qed.

(** Once a directive was inserted, the pattern for base directives finds
    one in the snapshot. *)
Lemma test_base_after_directive (loc : Location) (a b : jsstring) :
  test baseTagRegex (a ++ base_directive loc ++ b) = true.
Proof.
  destruct (match_here_base_directive_some loc b) as [m Hm].
  replace (a ++ base_directive loc ++ b)
    with ((a ++ [10%N]) ++ tl (base_directive loc) ++ b).
  - exact (test_found _ _ _ m Hm).
  - rewrite base_directive_shape. cbn [tl]. now rewrite <- app_assoc.
Qed.

Lemma test_base_after_synthetic_head (loc : Location) (a b : jsstring) :
  test baseTagRegex (a ++ synthetic_head loc ++ b) = true.
Proof.
  destruct (match_here_base_directive_some loc (lit "</head>" ++ b))
    as [m Hm].
  replace (a ++ synthetic_head loc ++ b)
    with ((a ++ 10%N :: lit "<head>")
            ++ tl (base_directive loc) ++ lit "</head>" ++ b).
  - exact (test_found _ _ _ m Hm).
  - rewrite synthetic_head_shape. now rewrite <- !app_assoc.
Qed.

(** Building the snapshot of a snapshot changes nothing: the first pass
    leaves a base directive behind wherever it inserted anything, and a
    document with a base directive is returned as it is. *)
Theorem generateHtmlSnapshot_idempotent (loc : Location) (html : jsstring) :
  generateHtmlSnapshot loc (generateHtmlSnapshot loc html) =
    generateHtmlSnapshot loc html.
Proof.
  assert (Hkeep : forall s, test baseTagRegex s = true ->
                            generateHtmlSnapshot loc s = s).
  { intros s Hs. unfold generateHtmlSnapshot. now rewrite Hs. }
  destruct (generateHtmlSnapshot_branches loc html)
    as [[Hb ->] | [[_ [i [n [_ ->]]]] | [[_ [_ [i [n [_ ->]]]]] | H]]].
  - now apply Hkeep.
  - apply Hkeep, test_base_after_directive.
  - apply Hkeep, test_base_after_synthetic_head.
  - destruct H as [Hb [Hh [Ht Hid]]]. rewrite Hid.
    unfold generateHtmlSnapshot. now rewrite Hb, Hh, Ht.
Qed.


(** The snapshot is the document with at most one block of text inserted:
    nothing of the document is removed, reordered or rewritten, and what is
    inserted is nothing, the base directive, or the made-up head element. *)
Theorem generateHtmlSnapshot_only_inserts (loc : Location) (html : jsstring) :
  exists (k : nat) (inserted : jsstring),
    generateHtmlSnapshot loc html =
      firstn k html ++ inserted ++ skipn k html /\
    (inserted = [] \/ inserted = base_directive loc \/
     inserted = synthetic_head loc) /\
    List.length (generateHtmlSnapshot loc html) =
      List.length html + List.length inserted.
Proof.
  assert (Hlen : forall k ins,
             List.length (firstn k html ++ ins ++ skipn k html) =
             List.length html + List.length ins).
  { intros k ins. rewrite !length_app.
    rewrite <- (firstn_skipn k html) at 3. rewrite length_app. lia. }
  destruct (generateHtmlSnapshot_branches loc html)
    as [[_ H] | [[_ [i [n [_ H]]]] | [[_ [_ [i [n [_ H]]]]] | [_ [_ [_ H]]]]]].
  - exists 0, []. rewrite H. cbn. repeat split; [now left | lia].
  - exists (i + n), (base_directive loc). rewrite H. auto.
  - exists (i + n), (synthetic_head loc). rewrite H. auto.
  - exists 0, []. rewrite H. cbn. repeat split; [now left | lia].
Qed.

Lemma tag_none_inside (name : string) (a0 x y : jsstring) :
  gt_free (tag_open name) = true ->
  exec (tag name) ((a0 ++ [62%N]) ++ y) = None ->
  forall t1 t2,
    a0 ++ [62%N] = t1 ++ t2 -> t2 <> [] ->
    match_here (tag name) (t2 ++ x) = None.
Proof.
  intros Hfree Hnone t1 t2 Ht Hne.
  pose proof (suffix_has_last _ _ _ _ Ht Hne) as Hin.
  rewrite (match_here_tag_app name t2 x y Hfree Hin).
  apply (exec_none _ _ Hnone t1). now rewrite Ht, app_assoc.
Qed.

Lemma count_base_directive (loc : Location) (z : jsstring) :
  ~ In 62%N (baseHref loc) ->
  count_from baseTagRegex (tl (base_directive loc) ++ z) 0 =
    S (count_from baseTagRegex z 0).
Proof.
  intros Hfree. pose proof (match_here_base_directive loc z Hfree) as Hdir.
  assert (Hcons : base_directive loc = 10%N :: tl (base_directive loc)).
  { rewrite base_directive_shape. reflexivity. }
  rewrite Hcons in Hdir at 2. cbn [List.length] in Hdir.
  destruct (tl (base_directive loc)) as [| d D] eqn:HD.
  { rewrite base_directive_shape in HD. discriminate. }
  cbn [app count_from]. cbn [app] in Hdir. rewrite Hdir.
  replace (S (List.length (d :: D)) - 1 - 1) with (List.length D)
    by (cbn [List.length]; lia).
  now rewrite count_from_skip.
Qed.

Lemma exec_here (p : regex) (s : jsstring) (m : nat) :
  match_here p s = Some m -> exec p s = Some (0, m).
Proof. intros H. destruct s; cbn [exec]; now rewrite H. Qed.



(** ** Asset harvesting: the other paths *)

(** An image that has not finished loading and whose wait ends with an
    error or with the timeout is skipped, whatever its source and size: no
    asset, no fetch, and one warning that carries the cause (the timeout's
    error, or the error event). *)
Theorem processImage_unloaded_is_skipped (net : Network) (img : Img) :
  complete img = false ->
  load_signal img <> Loaded ->
  processImage net img =
    ([ConsoleWarn Text.warn_image
        (match load_signal img with
         | TimedOut => Error Text.load_timeout
         | _ => ErrorEvent
         end)],
     Return None).
Proof.
  intros Hc Hl. unfold processImage, load_promise. rewrite Hc.
  destruct (load_signal img); [contradiction | reflexivity | reflexivity].
Qed.

Lemma processImage_unloaded_witness :
  processImage sample_net stalled_image =
    ([ConsoleWarn Text.warn_image (Error Text.load_timeout)], Return None).
Proof.
  apply (processImage_unloaded_is_skipped sample_net stalled_image).
  - reflexivity.
  - discriminate.
Defined.

(** A loaded image that is large enough, not inline, and whose source can
    be fetched and read is emitted with both fields: [base64] is what the
    reader produced and [src_url] is the source.  This takes one fetch, a
    GET of the source, and logs nothing. *)
Theorem processImage_inlines_remote (net : Network) (img : Img)
  (r : Response) (b : Blob) (dataURL : jsstring) :
  loads img = true ->
  startsWith (lit "data:image/") (image_source img) = false ->
  (300 <= naturalWidth img /\ 300 <= naturalHeight img)%N ->
  net (lit "GET") (image_source img) = FetchReturns (Fulfilled r) ->
  ok r = true ->
  blob r = Fulfilled b ->
  readAsDataURL b = Some dataURL ->
  processImage net img =
    ([FetchCall (lit "GET") (image_source img)],
     Return (Some {| type := image; base64 := Some dataURL;
                     src_url := Some (image_source img);
                     width := naturalWidth img;
                     height := naturalHeight img |})).
Proof.
  intros Hl Hb [Hw Hh] Hnet Hok Hblob Hread.
  assert (Hlarge : isLargeEnough img = true).
  { unfold isLargeEnough. apply andb_true_iff. now rewrite !N.leb_le. }
  assert (Hfetch : imageUrlToBase64 net (image_source img) =
                   ([FetchCall (lit "GET") (image_source img)],
                    Return dataURL)).
  { unfold imageUrlToBase64, fetch, reader_promise.
    rewrite Hnet. cbn. rewrite Hok. cbn. rewrite Hblob. cbn.
    rewrite Hread. reflexivity. }
  unfold processImage, load_promise. fold (isBase64 img) in Hb.
  rewrite Hb, Hlarge, Hfetch. unfold loads in Hl.
  destruct (complete img); [reflexivity |].
  destruct (load_signal img); try discriminate. reflexivity.
Qed.

Lemma processImage_inlines_remote_witness :
  processImage sample_net sample_image =
    ([FetchCall (lit "GET") (lit "https://cdn.example/chart.png")],
     Return (Some {| type := image; base64 := Some sample_png;
                     src_url := Some (lit "https://cdn.example/chart.png");
                     width := 320; height := 320 |})).
Proof.
  refine (processImage_inlines_remote sample_net sample_image
            (sample_response 200 []) {| readAsDataURL := Some sample_png |}
            sample_png _ _ _ _ _ _ _); try reflexivity.
  split; apply N.leb_le; reflexivity.
Defined.

(** How [imageUrlToBase64] fails.  A fetch that throws or rejects, a status
    that is not a success and a body that cannot be read are rethrown as an
    [Error] whose message is the fixed prefix followed by the cause (its
    message, or [HTTP] and the status code).  A reader error is not: its
    promise leaves the [try] block unawaited, and the caller gets the bare
    event. *)
Theorem imageUrlToBase64_failure (net : Network) (url : jsstring)
  (e : Thrown) :
  result (imageUrlToBase64 net url) = Throw e ->
  match net (lit "GET") url with
  | FetchThrows cause | FetchReturns (Rejected cause) =>
      e = Error (Text.cannot_get_image ++ message_text cause)
  | FetchReturns (Fulfilled r) =>
      if ok r then
        match blob r with
        | Rejected cause =>
            e = Error (Text.cannot_get_image ++ message_text cause)
        | Fulfilled b => readAsDataURL b = None /\ e = ErrorEvent
        end
      else
        e = Error (Text.cannot_get_image ++ lit "HTTP "
                     ++ of_number (status r))
  end.
Proof.
  unfold imageUrlToBase64, fetch, reader_promise.
  destruct (net (lit "GET") url) as [c | [r | c]]; cbn.
  - intros H. now injection H as <-.
  - destruct (ok r); cbn.
    + destruct (blob r) as [b | c]; cbn.
      * destruct (readAsDataURL b); cbn; [discriminate |].
        intros H. now injection H as <-.
      * intros H. now injection H as <-.
    + intros H. now injection H as <-.
  - intros H. now injection H as <-.
Qed.

Lemma imageUrlToBase64_failure_witness :
  Error (Text.cannot_get_image ++ lit "Failed to fetch") =
  Error (Text.cannot_get_image
           ++ message_text (Error (lit "Failed to fetch"))).
Proof.
  exact (imageUrlToBase64_failure sample_net
           (lit "https://other.example/photo.jpg")
           (Error (Text.cannot_get_image ++ lit "Failed to fetch"))
           eq_refl).
Defined.

Lemma processCanvas_asset_ok (c : Canvas) (a : Asset) :
  result (processCanvas c) = Return (Some a) -> asset_ok a.
Proof.
  unfold processCanvas.
  destruct (N.eqb_spec (canvas_width c) 0) as [Hw | Hw]; cbn;
    [discriminate |].
  destruct (N.eqb_spec (canvas_height c) 0) as [Hh | Hh]; cbn;
    [discriminate |].
  destruct (toDataURL c) as [png | e]; cbn; [| discriminate].
  intros H. injection H as <-. unfold asset_ok. cbn. eauto.
Qed.

Lemma processImage_asset_ok (net : Network) (img : Img) (a : Asset) :
  result (processImage net img) = Return (Some a) -> asset_ok a.
Proof.
  rewrite processImage_spec.
  destruct (negb (loads img)); [discriminate |].
  destruct (isBase64 img) eqn:Hb, (isLargeEnough img) eqn:Hl; cbn;
    try discriminate; intros H; injection H as <-; unfold asset_ok; cbn.
  - eauto.
  - eauto.
  - unfold isLargeEnough in Hl. apply andb_true_iff in Hl.
    now rewrite !N.leb_le in Hl.
Qed.

(** Every asset a capture returns is well formed: a canvas asset has its
    pixels and a size that is not empty; an image asset without a URL is an
    inline [data:image/] source, and one with a URL has natural dimensions
    of at least 300 by 300. *)
Theorem extractAssets_assets_ok (net : Network) (page : Page)
  (harvested : list Asset) :
  result (extractAssets net page) = Return harvested ->
  Forall asset_ok harvested.
Proof.
  rewrite extractAssets_spec. cbn. intros H. injection H as <-.
  apply Forall_app. split; apply Forall_forall; intros a Hin.
  - unfold canvas_assets in Hin. apply in_flat_map in Hin.
    destruct Hin as [c [_ Hin]].
    destruct (result (processCanvas c)) as [[a' |] |] eqn:Hc;
      try contradiction.
    destruct Hin as [<- | []]. exact (processCanvas_asset_ok c a' Hc).
  - unfold image_assets in Hin. apply in_flat_map in Hin.
    destruct Hin as [i [_ Hin]].
    destruct (result (processImage net i)) as [[a' |] |] eqn:Hi;
      try contradiction.
    destruct Hin as [<- | []]. exact (processImage_asset_ok net i a' Hi).
Qed.

Lemma extractAssets_assets_ok_witness :
  Forall asset_ok
    [ {| type := canvas_chart; base64 := Some sample_png;
         src_url := None; width := 800; height := 400 |};
      {| type := image; base64 := Some sample_png;
         src_url := Some (lit "https://cdn.example/chart.png");
         width := 320; height := 320 |} ].
Proof.
  exact (extractAssets_assets_ok sample_net sample_page _ eq_refl).
Defined.

Lemma processCanvas_trace (c : Canvas) :
  filter is_fetch (trace (processCanvas c)) = [].
Proof.
  unfold processCanvas.
  destruct ((canvas_width c =? 0)%N || (canvas_height c =? 0)%N);
    [reflexivity |].
  destruct (toDataURL c); reflexivity.
Qed.

Lemma processImage_trace (net : Network) (img : Img) :
  filter is_fetch (trace (processImage net img)) = [] \/
  filter is_fetch (trace (processImage net img)) =
    [FetchCall (lit "GET") (image_source img)].
Proof.
  unfold processImage, load_promise.
  generalize (isBase64 img) (isLargeEnough img) (image_source img).
  intros b l s.
  destruct (imageUrlToBase64_cases net s) as [[d [_ Hf]] | [e [_ Hf]]];
    rewrite Hf; clear Hf;
    destruct (complete img), (load_signal img), b, l; cbn; auto.
Qed.

(** A capture asks for little: it returns at most one asset per canvas and
    per image, it calls [fetch] at most once per image and never for a
    canvas, and every such call is a GET of the source of an image of the
    page. *)
Theorem extractAssets_bounds (net : Network) (page : Page) :
  (exists harvested,
      result (extractAssets net page) = Return harvested /\
      List.length harvested <=
        List.length (canvases page) + List.length (images page)) /\
  List.length (filter is_fetch (trace (extractAssets net page))) <=
    List.length (images page) /\
  (forall method url,
      In (FetchCall method url) (trace (extractAssets net page)) ->
      method = lit "GET" /\
      exists img, In img (images page) /\ url = image_source img).
Proof.
  rewrite extractAssets_spec. cbn [result trace fst snd].
  split; [| split].
  - eexists. split; [reflexivity |]. rewrite length_app.
    assert (Hc : List.length (canvas_assets (canvases page)) <=
                 List.length (canvases page)).
    { unfold canvas_assets. induction (canvases page) as [| c cs IH];
        [cbn; lia |].
      cbn [flat_map]. rewrite length_app. cbn [List.length].
      destruct (result (processCanvas c)) as [[a |] |]; cbn; lia. }
    assert (Hi : List.length (image_assets net (images page)) <=
                 List.length (images page)).
    { unfold image_assets. induction (images page) as [| i is' IH];
        [cbn; lia |].
      cbn [flat_map]. rewrite length_app. cbn [List.length].
      destruct (result (processImage net i)) as [[a |] |]; cbn; lia. }
    lia.
  - rewrite filter_app, length_app.
    assert (Hc : filter is_fetch
                   (flat_map (fun c => trace (processCanvas c))
                      (canvases page)) = []).
    { induction (canvases page) as [| c cs IH]; [reflexivity |].
      cbn [flat_map]. now rewrite filter_app, processCanvas_trace, IH. }
    rewrite Hc. cbn [List.length].
    induction (images page) as [| i is' IH]; [cbn; lia |].
    cbn [flat_map]. rewrite filter_app, length_app. cbn [List.length].
    destruct (processImage_trace net i) as [-> | ->]; cbn; lia.
  - intros method url Hin. apply in_app_or in Hin. destruct Hin as [Hin | Hin].
    + apply in_flat_map in Hin. destruct Hin as [c [_ Hin]].
      assert (Hf : In (FetchCall method url)
                     (filter is_fetch (trace (processCanvas c)))).
      { apply filter_In. now split. }
      rewrite processCanvas_trace in Hf. contradiction.
    + apply in_flat_map in Hin. destruct Hin as [i [Hi Hin]].
      assert (Hf : In (FetchCall method url)
                     (filter is_fetch (trace (processImage net i)))).
      { apply filter_In. now split. }
      destruct (processImage_trace net i) as [Ht | Ht]; rewrite Ht in Hf.
      * contradiction.
      * destruct Hf as [Hf | []]. injection Hf as <- <-. eauto.
Qed.

(** ** The relay: the other paths *)

(** For a response with a success status [sendToApi] returns the decoded
    body, and the empty object when the body does not decode: a malformed
    body is not a failure. *)
Theorem sendToApi_success (net : Network) (endpoint : jsstring)
  (payload : JsValue) (r : Response) :
  net (lit "POST") endpoint = FetchReturns (Fulfilled r) ->
  ok r = true ->
  result (sendToApi net endpoint payload) =
    Return (match json r with
            | Fulfilled data => data
            | Rejected _ => JObject []
            end).
Proof.
  intros Hnet Hok. unfold sendToApi, sendToApi_try, fetch.
  rewrite Hnet. cbn. rewrite Hok. cbn.
  destruct (json r); reflexivity.
Qed.

Lemma sendToApi_success_witness :
  result (sendToApi (answering (sample_response 200 (lit "not json")))
            default_endpoint JNull) = Return (JObject []).
Proof.
  exact (sendToApi_success (answering (sample_response 200 (lit "not json")))
           default_endpoint JNull (sample_response 200 (lit "not json"))
           eq_refl eq_refl).
Defined.

(** An error whose message names neither [Failed to fetch] nor
    [NetworkError] leaves [sendToApi] as it was thrown: only network errors
    are rewritten. *)
Theorem sendToApi_rethrows_others (net : Network) (endpoint : jsstring)
  (payload : JsValue) (e : Thrown) (m : jsstring) :
  result (sendToApi_try net endpoint payload) = Throw e ->
  message e = Some m ->
  includes (lit "Failed to fetch") m = false ->
  includes (lit "NetworkError") m = false ->
  result (sendToApi net endpoint payload) = Throw e.
Proof.
  intros Hthrow Hm Hf Hn. unfold sendToApi, try_catch.
  destruct (sendToApi_try net endpoint payload) as [t o].
  cbn in Hthrow. subst o.
  now rewrite (sendToApi_catch_other e m Hm Hf Hn).
Qed.

Lemma sendToApi_rethrows_others_witness :
  result (sendToApi
            (fun _ _ => FetchReturns
                          (Rejected (Error (lit "The user aborted a request."))))
            default_endpoint JNull) =
    Throw (Error (lit "The user aborted a request.")).
Proof.
  refine (sendToApi_rethrows_others _ default_endpoint JNull
            (Error (lit "The user aborted a request."))
            (lit "The user aborted a request.") _ _ _ _); reflexivity.
Defined.

Lemma sendToApi_reports_status_witness :
  result (sendToApi (answering (unreadable_response 502))
            default_endpoint JNull) =
    Throw (Error (Text.api_error_prefix ++ lit "502): "
                    ++ Text.unreadable_body)).
Proof.
  refine (proj1 (sendToApi_reports_status
                   (answering (unreadable_response 502)) default_endpoint
                   JNull (unreadable_response 502) _ _ _ _)); reflexivity.
Defined.

Lemma sendToApi_try_trace (net : Network) (endpoint : jsstring)
  (payload : JsValue) :
  exists o, sendToApi_try net endpoint payload =
              ([FetchCall (lit "POST") endpoint], o).
Proof.
  destruct (net (lit "POST") endpoint) as [e | [r | e]] eqn:Hnet.
  - unfold sendToApi_try, fetch. rewrite Hnet. cbn. eauto.
  - destruct (ok r) eqn:Hok.
    + unfold sendToApi_try, fetch. rewrite Hnet. cbn. rewrite Hok. cbn.
      destruct (json r); cbn; eauto.
    + rewrite (sendToApi_try_status_error net endpoint payload r Hnet Hok).
      eauto.
  - unfold sendToApi_try, fetch. rewrite Hnet. cbn. eauto.
Qed.

Lemma sendToApi_catch_trace (e : Thrown) :
  exists o, sendToApi_catch e = ([], o).
Proof.
  unfold sendToApi_catch, message_includes.
  generalize (lit "Failed to fetch") (lit "NetworkError"). intros p q.
  destruct (message e) as [m |]; cbn; [| eauto].
  destruct (includes p m); cbn; [eauto |].
  destruct (includes q m); cbn; eauto.
Qed.

Lemma sendToApi_trace (net : Network) (endpoint : jsstring)
  (payload : JsValue) :
  trace (sendToApi net endpoint payload) = [FetchCall (lit "POST") endpoint].
Proof.
  unfold sendToApi, try_catch.
  destruct (sendToApi_try_trace net endpoint payload) as [[a | e] ->];
    [reflexivity |].
  destruct (sendToApi_catch_trace e) as [o ->]. reflexivity.
Qed.

(** Each operation of the relay sends one request and never a second one,
    however the first one ends: [sendToApi] a POST and [checkApiStatus] an
    OPTIONS, both to the endpoint it was given. *)
Theorem relay_sends_one_request (net : Network) (endpoint : jsstring)
  (payload : JsValue) :
  trace (sendToApi net endpoint payload) =
    [FetchCall (lit "POST") endpoint] /\
  trace (checkApiStatus net endpoint) =
    [FetchCall (lit "OPTIONS") endpoint].
Proof.
  split; [apply sendToApi_trace |].
  unfold checkApiStatus, fetch.
  destruct (net (lit "OPTIONS") endpoint) as [e | [r | e]]; cbn;
    try reflexivity.
  destruct (ok r || (status r =? 405)%N); reflexivity.
Qed.

(** ** The popup's feedback lines *)

Lemma str_eqb_refl (a : jsstring) : str_eqb a a = true.
Proof.
  induction a as [| x a IH]; [reflexivity |]. cbn. now rewrite N.eqb_refl.
Qed.

Lemma visible_hide (f : PopupJs.Feedback) :
  PopupJs.visible (PopupJs.hide f) = false.
Proof.
  unfold PopupJs.visible, PopupJs.hide, PopupJs.classList_add.
  cbn [PopupJs.classList].
  destruct (existsb (str_eqb (lit "hidden")) (PopupJs.classList f)) eqn:H.
  - now rewrite H.
  - rewrite existsb_app. cbn [existsb]. rewrite str_eqb_refl.
    now rewrite orb_true_r.
Qed.

Lemma visible_cleared (f : PopupJs.Feedback) :
  PopupJs.visible (PopupJs.cleared f) = false.
Proof. exact (visible_hide f). Qed.

Lemma visible_reveal (m : jsstring) (f : PopupJs.Feedback) :
  PopupJs.visible (PopupJs.reveal m f) = true.
Proof.
  unfold PopupJs.visible, PopupJs.reveal, PopupJs.classList_remove.
  cbn [PopupJs.classList].
  induction (PopupJs.classList f) as [| c l IH]; [reflexivity |].
  cbn [filter]. destruct (str_eqb (lit "hidden") c) eqn:Hc; cbn [negb].
  - exact IH.
  - cbn [existsb]. rewrite Hc. exact IH.
Qed.

(** The feedback lines are one slot.  Whatever the popup showed before,
    after [showProgress], [showError] or [showSuccess] exactly the line of
    that call is shown, with the text of the call; after [clearFeedback]
    none is shown and all three texts are empty.  None of the four touches
    the stored configuration or calls an extension API. *)
Theorem feedback_is_one_slot (m : jsstring) (s : PopupJs.State) :
  (let r := PopupJs.showProgress m s in
   feedback_shown (PopupJs.dom (final r)) = (true, false, false) /\
   PopupJs.textContent (PopupJs.progressText (PopupJs.dom (final r))) = m /\
   PopupJs.storage (final r) = PopupJs.storage s /\
   calls r = [] /\ ending r = Return tt) /\
  (let r := PopupJs.showError m s in
   feedback_shown (PopupJs.dom (final r)) = (false, true, false) /\
   PopupJs.textContent (PopupJs.errorText (PopupJs.dom (final r))) = m /\
   PopupJs.storage (final r) = PopupJs.storage s /\
   calls r = [] /\ ending r = Return tt) /\
  (let r := PopupJs.showSuccess m s in
   feedback_shown (PopupJs.dom (final r)) = (false, false, true) /\
   PopupJs.textContent (PopupJs.successText (PopupJs.dom (final r))) = m /\
   PopupJs.storage (final r) = PopupJs.storage s /\
   calls r = [] /\ ending r = Return tt) /\
  (let r := PopupJs.clearFeedback s in
   feedback_shown (PopupJs.dom (final r)) = (false, false, false) /\
   PopupJs.textContent (PopupJs.progressText (PopupJs.dom (final r))) = [] /\
   PopupJs.textContent (PopupJs.errorText (PopupJs.dom (final r))) = [] /\
   PopupJs.textContent (PopupJs.successText (PopupJs.dom (final r))) = [] /\
   PopupJs.storage (final r) = PopupJs.storage s /\
   calls r = [] /\ ending r = Return tt).
Proof.
  unfold feedback_shown.
  repeat split; cbn;
    rewrite ?visible_hide, ?visible_reveal, ?visible_cleared; reflexivity.
Qed.

(** ** The popup's handlers *)

Ltac popup_cases c s :=
  let ge := fresh "ge" in let se := fresh "se" in let vu := fresh "vu" in
  let tq := fresh "tq" in let ex := fresh "ex" in let tm := fresh "tm" in
  let rm := fresh "rm" in let nw := fresh "nw" in
  let d := fresh "d" in let ep := fresh "ep" in let uid := fresh "uid" in
  destruct c as [ge se vu tq ex tm rm nw];
  destruct s as [d [ep uid]].

Ltac popup_eval :=
  cbv beta iota zeta delta
    [PopupJs.onCapture PopupJs.capture_and_upload PopupJs.onSaveConfig
     PopupJs.checkApiStatus PopupJs.loadConfig PopupJs.onDOMContentLoaded
     PopupJs.set_status PopupJs.pbind PopupJs.ptry PopupJs.pret
     PopupJs.pthrow PopupJs.does PopupJs.update PopupJs.pawait
     PopupJs.storage_get PopupJs.storage_set
     PopupJs.showProgress PopupJs.showError PopupJs.showSuccess
     PopupJs.clearFeedback
     PopupJs.set_apiEndpointInput PopupJs.set_userIdInput
     PopupJs.set_statusIndicator PopupJs.set_statusText
     PopupJs.set_currentEndpoint PopupJs.set_currentUserId
     PopupJs.set_progressText PopupJs.set_errorText PopupJs.set_successText
     PopupJs.apiEndpointInput PopupJs.userIdInput PopupJs.statusIndicator
     PopupJs.statusText PopupJs.currentEndpoint PopupJs.currentUserId
     PopupJs.progressText PopupJs.errorText PopupJs.successText
     PopupJs.dom PopupJs.storage PopupJs.apiEndpoint PopupJs.userId
     PopupJs.storage_get_error PopupJs.storage_set_error PopupJs.valid_url
     PopupJs.tabs_query PopupJs.executeScript PopupJs.tabs_sendMessage
     PopupJs.runtime_sendMessage PopupJs.now PopupJs.truthy
     PopupJs.wired delivered content_onMessage background_onMessage sent
     PopupJs.make_payload PopupJs.asset_count
     capture_success capture_error capture_url capture_domain capture_title
     capture_htmlSnapshot capture_assets reply_success reply_status
     result
     shows_error shows_success
     feedback_shown final calls ending fst snd negb orb andb].

Ltac settle :=
  popup_eval; rewrite ?visible_hide, ?visible_reveal, ?visible_cleared.

Ltac settled :=
  settle; cbv beta iota zeta delta [PopupJs.textContent PopupJs.reveal];
  now auto.





(** What the popup shows after a click on the capture button, for a stored
    user id and every way the steps can end.  A missing tab is reported as
    it is; every other failure is reported behind the capture-failed
    prefix: the rejection of the tab query, a page that cannot be reached,
    a missing or failed capture result (with its error text, or a fixed
    one), and, behind a second prefix, a relay that cannot be reached or
    that reports a failure.  Success is shown only when the relay answers
    with success, and it names the number of captured assets. *)
Theorem onCapture_feedback (c : PopupJs.Chrome) (s : PopupJs.State)
  (user : jsstring) :
  PopupJs.storage_get_error c = None ->
  PopupJs.truthy (PopupJs.userId (PopupJs.storage s)) = Some user ->
  let d := PopupJs.dom (final (PopupJs.onCapture c s)) in
  let endpoint := PopupJs.endpoint_or_default (PopupJs.storage s) in
  match PopupJs.tabs_query c with
  | Rejected e =>
      shows_error d (Label.capture_failed_with ++ message_text e)
  | Fulfilled None => shows_error d Label.no_active_tab
  | Fulfilled (Some tab) =>
      match PopupJs.tabs_sendMessage c with
      | Rejected _ =>
          shows_error d (Label.capture_failed_with ++ Label.page_unreachable)
      | Fulfilled None =>
          shows_error d (Label.capture_failed_with ++ Label.no_capture_result)
      | Fulfilled (Some captured) =>
          if capture_success captured
             && match PopupJs.truthy (capture_error captured) with
                | Some _ => false
                | None => true
                end
          then
            match PopupJs.runtime_sendMessage c
                    (SendToApi endpoint
                       (PopupJs.make_payload c user captured)) with
            | Rejected e =>
                shows_error d
                  (Label.capture_failed_with
                     ++ Label.relay_unreachable ++ message_text e)
            | Fulfilled reply =>
                if match reply with
                   | Some answer => reply_success answer
                   | None => false
                   end
                then
                  shows_success d
                    (Label.uploaded_prefix
                       ++ of_number (PopupJs.asset_count captured)
                       ++ Label.uploaded_suffix)
                else
                  shows_error d
                    (Label.capture_failed_with ++ Label.relay_unreachable
                       ++ PopupJs.upload_error_text reply)
            end
          else
            shows_error d
              (Label.capture_failed_with
                 ++ PopupJs.capture_error_text captured)
      end
  end.
Proof.
  intros Hget Huser d0 endpoint. subst d0 endpoint.
  popup_cases c s. cbn in Hget, Huser. subst ge.
  destruct uid as [[| x u] |]; try discriminate. injection Huser as <-.
  destruct tq as [[tab |] | e]; try settled.
  destruct ex as [e |];
    (destruct tm as [[[ok err url dm ti sn asts] |] | e'];
     try settled;
     destruct ok, err as [[| y err] |]; try settled;
     settle;
     match goal with
     | |- context [rm ?m] => destruct (rm m) as [[[rs rr rst rerr] |] | e'']
     end; try settled;
     destruct rs; settled).
Qed.

Lemma onCapture_feedback_witness :
  shows_error
    (PopupJs.dom (final (PopupJs.onCapture sample_chrome configured)))
    (Label.capture_failed_with ++ Label.no_capture_result).
Proof.
  exact (onCapture_feedback sample_chrome configured (lit "user_123")
           eq_refl eq_refl).
Defined.

(** ** The three scripts together *)

Lemma capturePageData_run (net : Network) (page : Page) :
  capturePageData net page =
    (trace (extractAssets net page),
     Return {| bundle_url := href (location page);
               bundle_domain := hostname (location page);
               bundle_title := title page;
               htmlSnapshot :=
                 generateHtmlSnapshot (location page) (outerHTML page);
               assets := canvas_assets (canvases page) ++
                         image_assets net (images page) |}).
Proof.
  unfold capturePageData. rewrite extractAssets_spec.
  unfold bind, ret, try_catch, trace, fst. now rewrite app_nil_r.
Qed.

Lemma checkApiStatus_run (net : Network) (endpoint : jsstring) :
  checkApiStatus net endpoint =
    ([FetchCall (lit "OPTIONS") endpoint],
     Return match net (lit "OPTIONS") endpoint with
            | FetchReturns (Fulfilled r) =>
                if ok r || (status r =? 405)%N then connected else unknown
            | FetchReturns (Rejected _) => unknown
            | FetchThrows _ => failed
            end).
Proof.
  unfold checkApiStatus, fetch.
  destruct (net (lit "OPTIONS") endpoint) as [e | [r | e]]; cbn;
    try reflexivity.
  destruct (ok r || (status r =? 405)%N); reflexivity.
Qed.



(** The background worker answers every status request with success and a
    status, never with a failure.  It answers an upload request with
    success and the relay's result, or with failure and the message of the
    error the relay threw, which it logs once.  Either way it sends exactly
    the one request of the relay. *)
Theorem background_onMessage_answers (net : Network) (endpoint : jsstring)
  (payload : UploadPayload) :
  (let h := background_onMessage net (CheckApiStatus endpoint) in
   keeps_channel h = true /\ logged h = [] /\
   effects h = [FetchCall (lit "OPTIONS") endpoint] /\
   exists st,
     result (checkApiStatus net endpoint) = Return st /\
     sent h = Some {| reply_success := true; reply_response := None;
                      reply_status := Some st; reply_error := None |}) /\
  (let h := background_onMessage net (SendToApi endpoint payload) in
   keeps_channel h = true /\
   effects h = [FetchCall (lit "POST") endpoint] /\
   match result (sendToApi net endpoint (payload_value payload)) with
   | Return v =>
       logged h = [] /\
       sent h = Some {| reply_success := true; reply_response := Some v;
                        reply_status := None; reply_error := None |}
   | Throw e =>
       logged h = [(Label.log_api_failed, e)] /\
       sent h = Some {| reply_success := false; reply_response := None;
                        reply_status := None; reply_error := message e |}
   end).
Proof.
  split.
  - unfold background_onMessage. rewrite checkApiStatus_run. cbn.
    repeat split. eexists. split; reflexivity.
  - unfold background_onMessage.
    pose proof (sendToApi_trace net endpoint (payload_value payload)) as Ht.
    destruct (sendToApi net endpoint (payload_value payload)) as [t [v | e]];
      cbn in Ht |- *; subst t; auto.
Qed.



(** The status line, end to end.  The popup asks the relay about the stored
    endpoint (or the default one), and the class and text of the status
    line follow what the probe met on the network: connected for a success
    status or 405, the warning for any other status and for an endpoint
    that cannot be reached, and the error only when the call of [fetch]
    itself threw. *)
Theorem status_end_to_end (net : Network) (page : Page)
  (c : PopupJs.Chrome) (s : PopupJs.State) :
  PopupJs.storage_get_error c = None ->
  let run := PopupJs.checkApiStatus (PopupJs.wired net page c) s in
  let endpoint := PopupJs.endpoint_or_default (PopupJs.storage s) in
  calls run = [PopupJs.RuntimeSendMessage (CheckApiStatus endpoint)] /\
  (PopupJs.statusIndicator (PopupJs.dom (final run)),
   PopupJs.statusText (PopupJs.dom (final run))) =
    match net (lit "OPTIONS") endpoint with
    | FetchReturns (Fulfilled r) =>
        if ok r || (status r =? 405)%N
        then (lit "status-indicator connected", Label.status_connected)
        else (lit "status-indicator warning", Label.status_unknown)
    | FetchReturns (Rejected _) =>
        (lit "status-indicator warning", Label.status_unknown)
    | FetchThrows _ => (lit "status-indicator error", Label.status_failed)
    end.
Proof.
  intros Hget run endpoint. subst run endpoint.
  popup_cases c s. cbn in Hget. subst ge.
  popup_eval. rewrite checkApiStatus_run. popup_eval.
  destruct (net (lit "OPTIONS") _) as [e | [r | e]]; popup_eval;
    try (split; reflexivity).
  destruct (ok r); [| destruct (status r =? 405)%N]; popup_eval;
    split; reflexivity.
Qed.

Lemma status_end_to_end_witness :
  PopupJs.statusIndicator
    (PopupJs.dom
       (final (PopupJs.checkApiStatus
                 (PopupJs.wired unreachable sample_page sample_chrome)
                 configured))) =
  lit "status-indicator warning".
Proof.
  exact (f_equal fst (proj2 (status_end_to_end unreachable sample_page
                               sample_chrome configured eq_refl))).
Defined.

(** The status check of the popup never throws and touches nothing but the
    status line: the stored configuration and the three feedback lines stay
    as they were.  The status line ends in one of three classes, and it
    reads connected only when the relay answered with success and that
    status. *)
Theorem popup_checkApiStatus_is_contained (c : PopupJs.Chrome)
  (s : PopupJs.State) :
  let run := PopupJs.checkApiStatus c s in
  let d := PopupJs.dom (final run) in
  ending run = Return tt /\
  PopupJs.storage (final run) = PopupJs.storage s /\
  (PopupJs.progressText d, PopupJs.errorText d, PopupJs.successText d) =
    (PopupJs.progressText (PopupJs.dom s), PopupJs.errorText (PopupJs.dom s),
     PopupJs.successText (PopupJs.dom s)) /\
  In (PopupJs.statusIndicator d)
     [lit "status-indicator connected"; lit "status-indicator warning";
      lit "status-indicator error"] /\
  (PopupJs.statusIndicator d = lit "status-indicator connected" ->
   exists answer,
     PopupJs.runtime_sendMessage c
       (CheckApiStatus
          (PopupJs.endpoint_or_default (PopupJs.storage s))) =
       Fulfilled (Some answer) /\
     reply_success answer = true /\
     reply_status answer = Some connected).
Proof.
  intros run d0. subst run d0. popup_cases c s.
  destruct ge as [e |].
  { popup_eval. repeat split; cbn; try tauto. discriminate. }
  popup_eval.
  match goal with
  | |- context [rm ?m] => destruct (rm m) as [[[rs rr rst rerr] |] | e'']
  end; popup_eval.
  - destruct rs; popup_eval.
    + destruct rst as [[| |] |]; popup_eval; repeat split; cbn; try tauto;
        try discriminate.
      intros _. eexists. repeat split.
    + repeat split; cbn; try tauto. discriminate.
  - repeat split; cbn; try tauto. discriminate.
  - repeat split; cbn; try tauto. discriminate.
Qed.

(** Saving the configuration.  The values are the inputs without the white
    space around them.  An empty endpoint, an empty user id and an endpoint
    that is no URL are each refused with their own message, in this order,
    and then nothing is stored and no extension API is called.  Otherwise
    both values are stored and shown, success is reported, and the status
    of the new endpoint is probed; if storing fails, the failure is logged
    and shown and the stored configuration stays as it was. *)
Theorem onSaveConfig_validates (c : PopupJs.Chrome) (s : PopupJs.State) :
  let endpoint := PopupJs.trim (PopupJs.apiEndpointInput (PopupJs.dom s)) in
  let user := PopupJs.trim (PopupJs.userIdInput (PopupJs.dom s)) in
  let run := PopupJs.onSaveConfig c s in
  let d := PopupJs.dom (final run) in
  let refused m :=
    calls run = [] /\ PopupJs.storage (final run) = PopupJs.storage s /\
    shows_error d m in
  ending run = Return tt /\
  match endpoint, user with
  | [], _ => refused Label.enter_endpoint
  | _ :: _, [] => refused Label.enter_user_id
  | _ :: _, _ :: _ =>
      if PopupJs.valid_url c endpoint then
        match PopupJs.storage_set_error c with
        | None =>
            PopupJs.storage (final run) =
              {| PopupJs.apiEndpoint := Some endpoint;
                 PopupJs.userId := Some user |} /\
            PopupJs.currentEndpoint d = endpoint /\
            PopupJs.currentUserId d = user /\
            shows_success d Label.config_saved /\
            (PopupJs.storage_get_error c = None ->
             calls run =
               [PopupJs.StorageSet endpoint user;
                PopupJs.RuntimeSendMessage (CheckApiStatus endpoint)])
        | Some e =>
            PopupJs.storage (final run) = PopupJs.storage s /\
            shows_error d (Label.save_failed_with ++ message_text e) /\
            calls run =
              [PopupJs.StorageSet endpoint user;
               PopupJs.ConsoleError Label.log_save_failed e]
        end
      else refused Label.bad_endpoint
  end.
Proof.
  intros endpoint user run d0 refused. subst endpoint user run d0 refused.
  destruct c as [ge se vu tq ex tm rm nw].
  destruct s as [[ai ui si st ce cu pt et sc] [ep uid]].
  popup_eval.
  destruct (PopupJs.trim ai) as [| a e1]; [settled |].
  destruct (PopupJs.trim ui) as [| b u1]; [settled |].
  destruct (vu (a :: e1)); [| settled].
  destruct se as [e |]; [settled |].
  destruct ge as [e |].
  - settle. cbv beta iota zeta delta [PopupJs.textContent PopupJs.reveal].
    repeat split. discriminate.
  - unfold PopupJs.endpoint_or_default. popup_eval.
    match goal with
    | |- context [rm ?m] => destruct (rm m) as [[[rs rr rst rerr] |] | e'']
    end; [destruct rs; [destruct rst as [[| |] |] |] | |];
      settle; cbv beta iota zeta delta [PopupJs.textContent PopupJs.reveal];
      repeat split.
Qed.

Lemma onSaveConfig_validates_witness :
  PopupJs.storage (final (PopupJs.onSaveConfig sample_chrome unconfigured)) =
    {| PopupJs.apiEndpoint := Some (lit "http://localhost:9000/ingest");
       PopupJs.userId := Some (lit "user_123") |}.
Proof.
  exact (proj1 (proj2 (onSaveConfig_validates sample_chrome unconfigured))).
Defined.

(** Opening the popup.  With a readable configuration the endpoint shown,
    the endpoint in the input and the endpoint whose status is probed are
    the same: the stored one, or the default one when none (or an empty
    one) is stored.  The user id shown is the stored one, or a dash.  With
    an unreadable configuration the failure is logged and shown, the status
    line reports the failure, and no message is sent. *)
Theorem onDOMContentLoaded_shows_config (c : PopupJs.Chrome)
  (s : PopupJs.State) :
  let run := PopupJs.onDOMContentLoaded c s in
  let d := PopupJs.dom (final run) in
  let endpoint := PopupJs.endpoint_or_default (PopupJs.storage s) in
  ending run = Return tt /\
  PopupJs.storage (final run) = PopupJs.storage s /\
  match PopupJs.storage_get_error c with
  | None =>
      PopupJs.apiEndpointInput d = endpoint /\
      PopupJs.currentEndpoint d = endpoint /\
      PopupJs.currentUserId d =
        match PopupJs.truthy (PopupJs.userId (PopupJs.storage s)) with
        | Some u => u
        | None => lit "-"
        end /\
      calls run = [PopupJs.RuntimeSendMessage (CheckApiStatus endpoint)]
  | Some e =>
      calls run = [PopupJs.ConsoleError Label.log_load_failed e] /\
      shows_error d (Label.load_failed_with ++ message_text e) /\
      PopupJs.statusIndicator d = lit "status-indicator error" /\
      PopupJs.statusText d = Label.status_failed_with ++ message_text e
  end.
Proof.
  intros run d0 endpoint. subst run d0 endpoint.
  destruct c as [ge se vu tq ex tm rm nw].
  destruct s as [[ai ui si st ce cu pt et sc] [ep uid]].
  destruct ge as [e |].
  - settle. cbv beta iota zeta delta [PopupJs.textContent PopupJs.reveal].
    repeat split.
  - unfold PopupJs.endpoint_or_default. popup_eval.
    destruct ep as [[| a e1] |], uid as [[| b u1] |]; popup_eval;
      (match goal with
       | |- context [rm ?m] => destruct (rm m) as [[[rs rr rst rerr] |] | e'']
       end; [destruct rs; [destruct rst as [[| |] |] |] | |];
       popup_eval; repeat split).
Qed.

Lemma popup_checkApiStatus_witness :
  exists answer,
    PopupJs.runtime_sendMessage
      (PopupJs.wired (answering (sample_response 204 [])) sample_page
         sample_chrome)
      (CheckApiStatus (PopupJs.endpoint_or_default (PopupJs.storage configured)))
      = Fulfilled (Some answer) /\
    reply_success answer = true /\
    reply_status answer = Some connected.
Proof.
  apply (popup_checkApiStatus_is_contained
           (PopupJs.wired (answering (sample_response 204 [])) sample_page
              sample_chrome)
           configured).
  reflexivity.
Defined.

Lemma extractAssets_bounds_witness :
  lit "GET" = lit "GET" /\
  exists img, In img (images sample_page) /\
              lit "https://cdn.example/chart.png" = image_source img.
Proof.
  apply (proj2 (proj2 (extractAssets_bounds sample_net sample_page))
           (lit "GET") (lit "https://cdn.example/chart.png")).
  left. reflexivity.
Defined.
